(** * Waveform synthesis of [modulation.py] (class [DigitalModulation])

    A shallow embedding of the modulation demo and the proofs of its
    specification.

    Numbers.  Python [int]s are [Z].  A Python [float] is the rational
    number it holds, in [Q].  The rounding of binary64 is written out
    ([b64_round]: to nearest, ties to even, with gradual underflow and
    without the overflow to infinity) where a result of the code depends on
    it: in the number of instants that [arange] lays out and in the
    frequency of an FSK symbol.  The other float operations are exact: on an
    instance made by the constructor, [carrier_freq_hz * demo_duration_s]
    is 8 and an ASK amplitude is a byte over a power of two, which binary64
    computes without error, and the sample instants [k * step] are kept as
    the products they approximate.  Everything that has gone through [pi],
    [sin] or [cos] (phases, angular frequencies, samples) is a real number
    [R].  A complex sample [x + 1j*y] is the pair [(x, y)].

    numpy, with the promotion rules of NumPy 2.  [packbits] yields unsigned
    bytes, and [byte + 1] with a Python [int] stays in [uint8] and wraps at
    255 ([uint8_add]).  The amplitude of ASK is computed from the wrapped
    sum.  In [get_psk_mod] and [get_qam_mod] the sum is kept as an integer:
    for the documented symbol widths, up to 8 bits, the reduction modulo
    256 changes the phase by a multiple of [2 pi] ([psk_increment_wrap]),
    and it never changes the constellation point ([qam_increment_wrap]).
    Exceptions are the constructor [Raise] of [result].

    The frequency span of FSK is a [number], a float or a Python [int]:
    with an [int] the product [byte * span] stays in [uint8], it wraps, and
    an [int] that is no byte is refused with OverflowError.  A rational
    where a [number] is expected is the float ([PyFloat] is a coercion).

    Range.  [bits_per_symbol_log2] stays below 1024: from there on
    [2**bits_per_symbol_log2] has no float, a case that the model leaves
    out.

    The file has the model first, then the vocabulary of the statements,
    then the lemmas and the theorems of the specification, then further
    properties of the code. *)

From Stdlib Require Import ZArith QArith Qround Qpower Qreduction Reals Qreals.
From Stdlib Require Import List Bool Lia Lra.
Import ListNotations.

Local Open Scope Z_scope.

(** * The model

    ** Exceptions *)

Inductive exn : Type :=
| ZeroDivisionError
| ValueError
| IndexError
| OverflowError.

Inductive result (A : Type) : Type :=
| Ok (a : A)
| Raise (e : exn).

Arguments Ok {A} a.
Arguments Raise {A} e.

Definition bind {A B : Type} (c : result A) (k : A -> result B) : result B :=
  match c with
  | Ok a => k a
  | Raise e => Raise e
  end.

Notation "x <- c ;; k" := (bind c (fun x => k))
  (at level 61, c at next level, right associativity).

(** ** Python and numpy primitives *)

Definition len {A : Type} (l : list A) : Z := Z.of_nat (length l).

(** [x // n] for a float [x] and an int [n]. *)
Definition floordiv (x : Q) (n : Z) : result Z :=
  if n =? 0 then Raise ZeroDivisionError
  else Ok (Qfloor (x / inject_Z n)%Q).

(** [1 / x] for a float [x]. *)
Definition truediv_one (x : Q) : result Q :=
  if Qeq_bool x 0%Q then Raise ZeroDivisionError else Ok (1 / x)%Q.

(** ** binary64

    [2^s], for any integer [s]. *)
Definition Qpow2 (s : Z) : Q := ((2 # 1) ^ s)%Q.

(** [floor(log2 q)] of a positive [q]: the binary logarithm of the integer
    part of [q * 2^k], with [2^k] at least the denominator of [q]. *)
Definition Qlog2_floor (q : Q) : Z :=
  let k := Z.log2_up (Zpos (Qden q)) in
  Z.log2 (Qfloor (q * inject_Z (2 ^ k))%Q) - k.

(** The nearest integer, the even one of two that are equally near. *)
Definition round_half_even (x : Q) : Z :=
  let f := Qfloor x in
  match Qcompare (x - inject_Z f)%Q (1 # 2)%Q with
  | Lt => f
  | Gt => f + 1
  | Eq => if Z.even f then f else f + 1
  end.

(** A positive [q] rounded to 53 significant bits; below [2^-1022] the last
    place stays at [2^-1074]. *)
Definition b64_round_pos (q : Q) : Q :=
  let s := Z.max (Qlog2_floor q - 52) (-1074) in
  (inject_Z (round_half_even (q / Qpow2 s)) * Qpow2 s)%Q.

(** The binary64 number nearest to [q], as a reduced fraction. *)
Definition b64_round (q : Q) : Q :=
  Qred match Qnum q with
       | 0 => 0%Q
       | Zpos _ => b64_round_pos q
       | Zneg _ => (- b64_round_pos (- q))%Q
       end.

(** The arithmetic of floats: the exact result, rounded. *)
Definition b64_add (x y : Q) : Q := b64_round (x + y).
Definition b64_sub (x y : Q) : Q := b64_round (x - y).
Definition b64_mul (x y : Q) : Q := b64_round (x * y).
Definition b64_div (x y : Q) : Q := b64_round (x / y).

(** The numbers that binary64 has, overflow apart. *)
Definition b64_representable (q : Q) : Prop :=
  exists m s,
    Z.abs m <= 2 ^ 53 /\ -1074 <= s /\ (q == inject_Z m * Qpow2 s)%Q.

(** A number that a caller passes for a physical quantity: a Python [int]
    or a [float]. *)
Inductive number : Type :=
| PyInt (z : Z)
| PyFloat (q : Q).

Bind Scope Q_scope with number.

Coercion PyFloat : Q >-> number.

(** ** Bytes

    [a + b] for a byte [a] and a Python [int] [b]: the sum stays in
    [uint8]. *)
Definition uint8_add (a b : Z) : Z := (a + b) mod 256.

(** [a * b] for a byte [a] and a Python [int] [b]: the product stays in
    [uint8], and numpy refuses an [int] that is no byte. *)
Definition uint8_mul (a b : Z) : result Z :=
  if (0 <=? b) && (b <=? 255) then Ok ((a * b) mod 256)
  else Raise OverflowError.

(** [arange(0, stop, step)]: numpy computes the number of instants as the
    ceiling of the quotient [stop / step] of its two float arguments, a
    float itself; the instants are [k * step]. *)
Definition arange (stop step : Q) : list Q :=
  map (fun k => (inject_Z (Z.of_nat k) * step)%Q)
      (seq 0 (Z.to_nat
                (Qceiling (b64_div (b64_round stop) (b64_round step))))).

(** [array(data_vec).astype(bool)]. *)
Definition astype_bool (data_vec : list Z) : list bool :=
  map (fun b => negb (b =? 0)) data_vec.

(** Consecutive chunks of [n] elements; [fuel] bounds the number of chunks. *)
Fixpoint chunks_fuel {A : Type} (fuel n : nat) (l : list A) : list (list A) :=
  match fuel with
  | O => []
  | S fuel' =>
      match l with
      | [] => []
      | _ :: _ => firstn n l :: chunks_fuel fuel' n (skipn n l)
      end
  end.

Definition chunks {A : Type} (n : nat) (l : list A) : list (list A) :=
  chunks_fuel (length l) n l.

(** [reshape(a, (-1, d))] (and the outer step of [(-1, 2, h)], with
    [d = 2*h]): the known dimensions multiply to [d]; numpy refuses a
    product that is zero, a second negative dimension, and a size that [d]
    does not divide. *)
Definition reshape {A : Type} (a : list A) (d : Z) : result (list (list A)) :=
  if d <=? 0 then Raise ValueError
  else if negb (len a mod d =? 0) then Raise ValueError
  else Ok (chunks (Z.to_nat d) a).

(** [reshape(a, (-1, 2, h))]. *)
Definition reshape3 {A : Type} (a : list A) (h : Z)
  : result (list (list (list A))) :=
  rows <- reshape a (2 * h) ;;
  Ok (map (chunks (Z.to_nat h)) rows).

(** One byte of [packbits(.., bitorder='little')]: the first bit weighs
    [2^0]. *)
Fixpoint pack_byte (bits : list bool) : Z :=
  match bits with
  | [] => 0
  | b :: bits' => Z.b2z b + 2 * pack_byte bits'
  end.

(** [packbits(data, bitorder='little')] on the flattened [data]: one byte
    per started group of eight bits. *)
Definition packbits_little (data : list bool) : list Z :=
  map pack_byte (chunks 8 data).

(** [a[0]]. *)
Definition getitem0 {A : Type} (a : list A) : result A :=
  match a with
  | [] => Raise IndexError
  | x :: _ => Ok x
  end.

(** A slice bound of Python: negative bounds count from the end, and every
    bound is clipped to the sequence. *)
Definition slice_index (n i : Z) : Z :=
  if i <? 0 then Z.max (i + n) 0 else Z.min i n.

Definition slice_start {A : Type} (a : list A) (start : Z) : nat :=
  Z.to_nat (slice_index (len a) start).

Definition slice_count {A : Type} (a : list A) (start stop : Z) : nat :=
  Z.to_nat (slice_index (len a) stop - slice_index (len a) start).

(** [a[start:stop]]. *)
Definition getslice {A : Type} (a : list A) (start stop : Z) : list A :=
  firstn (slice_count a start stop) (skipn (slice_start a start) a).

(** [a[start:stop] = vals]: [vals] has the length of the slice, or is one
    value that is broadcast; anything else is a shape error. *)
Definition setslice {A : Type} (a : list A) (start stop : Z) (vals : list A)
  : result (list A) :=
  let i := slice_start a start in
  let c := slice_count a start stop in
  match vals with
  | [x] => Ok (firstn i a ++ repeat x c ++ skipn (i + c)%nat a)
  | _ =>
      if Nat.eqb (length vals) c
      then Ok (firstn i a ++ vals ++ skipn (i + c)%nat a)
      else Raise ValueError
  end.

Definition zeros_like {A X : Type} (zero : X) (a : list A) : list X :=
  map (fun _ => zero) a.

(** [for idx, data in enumerate(l)] with the loop's variables as state. *)
Fixpoint for_enumerate {A S : Type} (body : Z -> A -> S -> result S)
  (idx : Z) (l : list A) (s : S) : result S :=
  match l with
  | [] => Ok s
  | data :: l' =>
      s' <- body idx data s ;;
      for_enumerate body (idx + 1) l' s'
  end.

(** ** The class *)

Record DigitalModulation : Type := {
  carrier_freq_hz : Q;
  demo_duration_s : Q;
  _oversampling : Z;
  _sample_freq_hz : Q;
  _sample_period_s : Q;
  start_phase_rad : R;
  sample_points_s : list Q
}.

(** [DigitalModulation.__init__(carrier_freq_hz, demo_duration_s)]: the two
    public fields receive the literals [1e6] and [8e-6], the derived ones
    are computed from the arguments. *)
Definition init (carrier_freq_hz demo_duration_s : Q)
  : result DigitalModulation :=
  let self_carrier_freq_hz := (1000000 # 1)%Q in
  let self_demo_duration_s := (8 # 1000000)%Q in
  let self_oversampling := 32 in
  let self_sample_freq_hz :=
    (carrier_freq_hz * inject_Z self_oversampling)%Q in
  self_sample_period_s <- truediv_one self_sample_freq_hz ;;
  Ok {| carrier_freq_hz := self_carrier_freq_hz;
        demo_duration_s := self_demo_duration_s;
        _oversampling := self_oversampling;
        _sample_freq_hz := self_sample_freq_hz;
        _sample_period_s := self_sample_period_s;
        start_phase_rad := 0%R;
        sample_points_s := arange demo_duration_s self_sample_period_s |}.

Definition complex : Type := (R * R)%type.

(** The [if]/[elif] chain of [get_qam_modulation_mapping] (a method that
    does not read [self]): [Some] where a branch assigns [ret_val], [None]
    where none does. *)
Definition qam_table (value qam_idx : Z) : option (Z * Z) :=
  if qam_idx =? 4 then
    if value =? 0 then Some (1, 1)
    else if value =? 1 then Some (1, -1)
    else if value =? 2 then Some (-1, 1)
    else if value =? 3 then Some (-1, -1)
    else None
  else if qam_idx =? 8 then
    if value =? 0 then Some (3, 0)
    else if value =? 1 then Some (1, 1)
    else if value =? 2 then Some (-1, 1)
    else if value =? 3 then Some (0, 3)
    else if value =? 4 then Some (1, -1)
    else if value =? 5 then Some (0, -3)
    else if value =? 6 then Some (-3, 0)
    else if value =? 7 then Some (-1, -1)
    else None
  else if qam_idx =? 16 then
    if value =? 0 then Some (1, 1)
    else if value =? 1 then Some (3, 1)
    else if value =? 2 then Some (1, 3)
    else if value =? 3 then Some (3, 3)
    else if value =? 4 then Some (1, -1)
    else if value =? 5 then Some (3, -1)
    else if value =? 6 then Some (1, -3)
    else if value =? 7 then Some (3, -3)
    else if value =? 8 then Some (-1, 1)
    else if value =? 9 then Some (-3, 1)
    else if value =? 10 then Some (-1, 3)
    else if value =? 11 then Some (-3, 3)
    else if value =? 12 then Some (-1, -1)
    else if value =? 13 then Some (-3, -1)
    else if value =? 14 then Some (-1, -3)
    else if value =? 15 then Some (-3, -3)
    else None
  else None.

(** [ret_val] starts as [(0, 0)] and is returned as it is when no branch
    matches. *)
Definition get_qam_modulation_mapping (value qam_idx : Z) : Z * Z :=
  match qam_table value qam_idx with
  | Some ret_val => ret_val
  | None => (0, 0)
  end.

Section Methods.

Variable self : DigitalModulation.

Definition get_carrier : list R :=
  map (fun t => sin (2 * PI * Q2R (carrier_freq_hz self) * Q2R t)%R)
      (sample_points_s self).

(** The first statement of the four modulators. *)
Definition periods_per_bit (data_vec : list Z) : result Z :=
  floordiv (carrier_freq_hz self * demo_duration_s self)%Q (len data_vec).

Definition mod_samples_per_bit (periods : Z) : Z :=
  periods * _oversampling self.

(** [modulated_values_v[start:stop] = f(sample_points_s[start:stop])]. *)
Definition write_segment {X : Type} (f : Q -> X) (start stop : Z)
  (modulated_values_v : list X) : result (list X) :=
  setslice modulated_values_v start stop
           (map f (getslice (sample_points_s self) start stop)).

(** [(modulated_value + 1) / amplitude_divider] for the byte
    [modulated_value]. *)
Definition ask_amp_value (bits_per_symbol_log2 modulated_value : Z) : Q :=
  let amplitude_divider := 2 ^ bits_per_symbol_log2 in
  (inject_Z (uint8_add modulated_value 1) / inject_Z amplitude_divider)%Q.

Definition ask_sample (amp_value : Q) (t : Q) : R :=
  let angular_frequency_hz := (2 * PI * Q2R (carrier_freq_hz self))%R in
  (Q2R amp_value * sin (angular_frequency_hz * Q2R t + start_phase_rad self))%R.

Definition get_ask_mod (data_vec : list Z) (bits_per_symbol_log2 : Z)
  : result (list R) :=
  periods <- periods_per_bit data_vec ;;
  let mod_samples := mod_samples_per_bit periods in
  let modulated_values_v := zeros_like 0%R (sample_points_s self) in
  let data_vec_bool := astype_bool data_vec in
  ask_data_vec <- reshape data_vec_bool bits_per_symbol_log2 ;;
  for_enumerate
    (fun idx data modulated_values_v =>
       modulated_value <- getitem0 (packbits_little data) ;;
       let amp_value := ask_amp_value bits_per_symbol_log2 modulated_value in
       let start_sample_idx := idx * _oversampling self in
       let stop_sample_idx := start_sample_idx + mod_samples in
       write_segment (ask_sample amp_value)
                     start_sample_idx stop_sample_idx modulated_values_v)
    0 ask_data_vec modulated_values_v.

Definition psk_phase_value_rad (bits_per_symbol_log2 modulated_value : Z) : R :=
  let phase_divider := 2 ^ bits_per_symbol_log2 in
  (start_phase_rad self + 2 * PI * IZR modulated_value / IZR phase_divider)%R.

Definition psk_sample (phase_value_rad : R) (t : Q) : R :=
  let angular_frequency_hz := (2 * PI * Q2R (carrier_freq_hz self))%R in
  sin (angular_frequency_hz * Q2R t + phase_value_rad)%R.

Definition get_psk_mod (data_vec : list Z) (bits_per_symbol_log2 : Z)
  : result (list R) :=
  periods <- periods_per_bit data_vec ;;
  let mod_samples := mod_samples_per_bit periods in
  let modulated_values_v := zeros_like 0%R (sample_points_s self) in
  let data_vec_bool := astype_bool data_vec in
  ask_data_vec <- reshape data_vec_bool bits_per_symbol_log2 ;;
  for_enumerate
    (fun idx data modulated_values_v =>
       packed <- getitem0 (packbits_little data) ;;
       let modulated_value := packed + 1 in
       let phase_value_rad :=
         psk_phase_value_rad bits_per_symbol_log2 modulated_value in
       let start_sample_idx := idx * _oversampling self in
       let stop_sample_idx := start_sample_idx + mod_samples in
       write_segment (psk_sample phase_value_rad)
                     start_sample_idx stop_sample_idx modulated_values_v)
    0 ask_data_vec modulated_values_v.

(** [frequency_span / 2]: the float nearest to the half of an [int], the
    quotient of floats for the float that the caller passes. *)
Definition half_span (frequency_span : number) : Q :=
  match frequency_span with
  | PyInt z => b64_round (inject_Z z / 2)
  | PyFloat q => b64_div (b64_round q) 2
  end.

(** [modulated_value * frequency_span] for the byte [modulated_value]: a
    float with a float span, a byte with an [int] span. *)
Definition byte_times_span (modulated_value : Z) (frequency_span : number)
  : result Q :=
  match frequency_span with
  | PyInt z =>
      product <- uint8_mul modulated_value z ;;
      Ok (inject_Z product)
  | PyFloat q => Ok (b64_mul (inject_Z modulated_value) (b64_round q))
  end.

(** [frequency_min + modulated_value * frequency_span / freq_span_divider]
    in the arithmetic of floats; a byte converts to a float without error,
    the divider is rounded as a Python [int] is. *)
Definition fsk_freq_value_hz (frequency_span : number)
  (bits_per_symbol_log2 modulated_value : Z) : result Q :=
  let frequency_min :=
    b64_sub (carrier_freq_hz self) (half_span frequency_span) in
  let freq_span_divider := 2 ^ bits_per_symbol_log2 - 1 in
  product <- byte_times_span modulated_value frequency_span ;;
  Ok (b64_add frequency_min
              (b64_div product (b64_round (inject_Z freq_span_divider)))).

Definition fsk_sample (freq_value_hz : Q) (t : Q) : R :=
  let angular_frequency_hz := (2 * PI * Q2R freq_value_hz)%R in
  sin (angular_frequency_hz * Q2R t + start_phase_rad self)%R.

Definition get_fsk_mod (data_vec : list Z) (frequency_span : number)
  (bits_per_symbol_log2 : Z) : result (list R) :=
  periods <- periods_per_bit data_vec ;;
  let mod_samples := mod_samples_per_bit periods in
  let modulated_values_v := zeros_like 0%R (sample_points_s self) in
  let data_vec_bool := astype_bool data_vec in
  fsk_data_vec <- reshape data_vec_bool bits_per_symbol_log2 ;;
  for_enumerate
    (fun idx data modulated_values_v =>
       modulated_value <- getitem0 (packbits_little data) ;;
       freq_value_hz <-
         fsk_freq_value_hz frequency_span bits_per_symbol_log2
                           modulated_value ;;
       let start_sample_idx := idx * _oversampling self in
       let stop_sample_idx := start_sample_idx + mod_samples in
       write_segment (fsk_sample freq_value_hz)
                     start_sample_idx stop_sample_idx modulated_values_v)
    0 fsk_data_vec modulated_values_v.

Definition qam_sample (iq : Z * Z) (t : Q) : complex :=
  let angular_frequency_hz := (2 * PI * Q2R (carrier_freq_hz self))%R in
  let '(i_val, q_val) := iq in
  ((IZR i_val * cos (angular_frequency_hz * Q2R t))%R,
   (IZR q_val * sin (angular_frequency_hz * Q2R t))%R).

Definition get_qam_mod (data_vec : list Z) (bits_per_symbol_log2 : Z)
  : result (list complex) :=
  periods <- periods_per_bit data_vec ;;
  let mod_samples := mod_samples_per_bit periods in
  let modulated_values_v := zeros_like (0%R, 0%R) (sample_points_s self) in
  let data_vec_bool := astype_bool data_vec in
  data_vec_qam <- reshape3 data_vec_bool (bits_per_symbol_log2 / 2) ;;
  let qam_idx := 2 ^ bits_per_symbol_log2 in
  for_enumerate
    (fun idx data modulated_values_v =>
       packed <- getitem0 (packbits_little (concat data)) ;;
       let modulated_value := packed + 1 in
       let iq := get_qam_modulation_mapping modulated_value qam_idx in
       let start_sample_idx := idx * _oversampling self in
       let stop_sample_idx := start_sample_idx + mod_samples in
       write_segment (qam_sample iq)
                     start_sample_idx stop_sample_idx modulated_values_v)
    0 data_vec_qam modulated_values_v.

End Methods.

(** * The vocabulary of the statements *)

(** The configuration of the data model: positive carrier frequency and
    duration, at least one sample per carrier period. *)
Definition valid_config (self : DigitalModulation) : Prop :=
  (0 < carrier_freq_hz self)%Q
  /\ (0 < demo_duration_s self)%Q
  /\ 1 <= _oversampling self.

(** [DigitalModulation()]: 1 MHz carrier, 8 us, 256 sample instants. *)
Definition demo : DigitalModulation :=
  {| carrier_freq_hz := (1000000 # 1)%Q;
     demo_duration_s := (8 # 1000000)%Q;
     _oversampling := 32;
     _sample_freq_hz := ((1000000 # 1) * inject_Z 32)%Q;
     _sample_period_s := (1 / ((1000000 # 1) * inject_Z 32))%Q;
     start_phase_rad := 0%R;
     sample_points_s :=
       arange (8 # 1000000)%Q (1 / ((1000000 # 1) * inject_Z 32))%Q |}.

(** The cycle count of a call: the value of [periods_per_bit] on a
    non-empty [data_vec]. *)
Definition cycles (self : DigitalModulation) (data_vec : list Z) : Z :=
  Qfloor (carrier_freq_hz self * demo_duration_s self
          / inject_Z (len data_vec))%Q.

(** The value that [packbits(data, bitorder='little')[0]] has on a
    non-empty [data]. *)
Definition symbol_value (data : list bool) : Z := pack_byte (firstn 8 data).

(** The rows of [reshape(data_vec_bool, (-1, B))]. *)
Definition symbols (data_vec : list Z) (B : Z) : list (list bool) :=
  chunks (Z.to_nat B) (astype_bool data_vec).

(** The rows of [reshape(data_vec_bool, (-1, 2, B//2))]. *)
Definition qam_symbols (data_vec : list Z) (B : Z) : list (list (list bool)) :=
  map (chunks (Z.to_nat (B / 2))) (symbols data_vec (2 * (B / 2))).

(** The samples of one symbol, per scheme, as the loop bodies compute
    them. *)
Definition ask_symbol (self : DigitalModulation) (B : Z) (data : list bool)
  : Q -> R :=
  ask_sample self (ask_amp_value B (symbol_value data)).

Definition psk_symbol (self : DigitalModulation) (B : Z) (data : list bool)
  : Q -> R :=
  psk_sample self (psk_phase_value_rad self B (symbol_value data + 1)).

(** The frequency of the symbol value [v] for a float span. *)
Definition fsk_frequency (self : DigitalModulation) (span : Q) (B v : Z) : Q :=
  b64_add (b64_sub (carrier_freq_hz self) (b64_div (b64_round span) 2))
          (b64_div (b64_mul (inject_Z v) (b64_round span))
                   (b64_round (inject_Z (2 ^ B - 1)))).

Definition fsk_symbol (self : DigitalModulation) (span : Q) (B : Z)
  (data : list bool) : Q -> R :=
  fsk_sample self (fsk_frequency self span B (symbol_value data)).

Definition qam_symbol (self : DigitalModulation) (B : Z)
  (data : list (list bool)) : Q -> complex :=
  qam_sample self
    (get_qam_modulation_mapping (symbol_value (concat data) + 1) (2 ^ B)).

(** Sample [k] lies in the slice [start:stop]. *)
Definition in_slice (start stop : Z) (k : nat) : bool :=
  (start <=? Z.of_nat k) && (Z.of_nat k <? stop).

(** Sample [k] lies in the segment of symbol [idx], [m] samples long. *)
Definition covers (self : DigitalModulation) (m idx : Z) (k : nat) : bool :=
  in_slice (idx * _oversampling self) (idx * _oversampling self + m) k.

(** The symbol whose segment is the last one written over sample [k], when
    the loop runs over [syms] from index [idx]; [prev] when there is none. *)
Fixpoint writer {Sym : Type} (self : DigitalModulation) (m idx : Z)
  (syms : list Sym) (k : nat) (prev : option Sym) : option Sym :=
  match syms with
  | [] => prev
  | data :: syms' =>
      writer self m (idx + 1) syms' k
             (if covers self m idx k then Some data else prev)
  end.

(** A waveform made of the segments of [syms]: sample [k] is the sample of
    the last symbol written over it, at instant [t_k], and [zero] where no
    segment reaches. *)
Definition synthesized {X Sym : Type} (self : DigitalModulation) (zero : X)
  (m : Z) (syms : list Sym) (sample : Sym -> Q -> X) (w : list X) : Prop :=
  length w = length (sample_points_s self)
  /\ forall k t, nth_error (sample_points_s self) k = Some t ->
       nth_error w k
       = Some match writer self m 0 syms k None with
              | Some data => sample data t
              | None => zero
              end.

(** Inverse lookup in the constellation of size [M]: the first key whose
    point is [iq]. *)
Definition qam_inverse (iq : Z * Z) (M : Z) : option Z :=
  find (fun v => match qam_table v M with
                 | Some (i, q) => (i =? fst iq) && (q =? snd iq)
                 | None => false
                 end)
       (map Z.of_nat (seq 0 (Z.to_nat M))).

(** The keys [0 .. M-1] of a constellation with their points. *)
Definition constellation (M : Z) : list (Z * (Z * Z)) :=
  map (fun v => (v, get_qam_modulation_mapping v M))
      (map Z.of_nat (seq 0 (Z.to_nat M))).

(** The outcome of a modulator call on [data_vec] with rows of [d] bits:
    which exception for which input, and the length of a returned
    waveform. *)
Definition outcome_spec {X : Type} (self : DigitalModulation)
  (data_vec : list Z) (d : Z) (r : result (list X)) : Prop :=
  match r with
  | Ok w =>
      data_vec <> [] /\ 0 < d /\ len data_vec mod d = 0
      /\ length w = length (sample_points_s self)
  | Raise ZeroDivisionError => data_vec = []
  | Raise ValueError =>
      data_vec <> [] /\ (d <= 0 \/ len data_vec mod d <> 0)
  | Raise IndexError => False
  | Raise OverflowError => False
  end.

(** The index of the symbol that sample [k] shows, among [n] symbols with
    segments of [m] samples: the last symbol that starts at or before [k],
    if its segment reaches [k]. *)
Definition owner (self : DigitalModulation) (m : Z) (n k : nat) : option nat :=
  let j := Z.min (Z.of_nat k / _oversampling self) (Z.of_nat n - 1) in
  if (0 <? Z.of_nat n) && (Z.of_nat k <? j * _oversampling self + m)
  then Some (Z.to_nat j)
  else None.

(** A waveform whose sample [k] is the sample of symbol [owner k], and
    [zero] where there is none. *)
Definition owned {X Sym : Type} (self : DigitalModulation) (zero : X)
  (m : Z) (syms : list Sym) (sample : Sym -> Q -> X) (w : list X) : Prop :=
  length w = length (sample_points_s self)
  /\ forall k t, nth_error (sample_points_s self) k = Some t ->
       nth_error w k
       = Some match owner self m (length syms) k with
              | Some j =>
                  match nth_error syms j with
                  | Some data => sample data t
                  | None => zero
                  end
              | None => zero
              end.

(** * Facts about the primitives *)

Lemma bind_ok {A B : Type} (c : result A) (k : A -> result B) (a : A) :
  c = Ok a -> bind c k = k a.
Proof. intros ->. reflexivity. Qed.

Lemma len_nonneg {A : Type} (l : list A) : 0 <= len l.
Proof. unfold len. lia. Qed.

Lemma len_zero_iff {A : Type} (l : list A) : len l = 0 <-> l = [].
Proof.
  unfold len. destruct l; simpl; split; intros H; try reflexivity;
    try discriminate; lia.
Qed.

Lemma astype_bool_length (data_vec : list Z) :
  length (astype_bool data_vec) = length data_vec.
Proof. unfold astype_bool. apply length_map. Qed.

Lemma zeros_like_length {A X : Type} (zero : X) (a : list A) :
  length (zeros_like zero a) = length a.
Proof. unfold zeros_like. apply length_map. Qed.

Lemma zeros_like_nth_error {A X : Type} (zero : X) (a : list A) (k : nat) :
  nth_error (zeros_like zero a) k = option_map (fun _ => zero) (nth_error a k).
Proof. unfold zeros_like. apply nth_error_map. Qed.

(** ** binary64 *)

Lemma Qpow2_pos (s : Z) : (0 < Qpow2 s)%Q.
Proof. apply Qpower_0_lt. reflexivity. Qed.

Lemma Qpow2_nonzero (s : Z) : ~ (Qpow2 s == 0)%Q.
Proof. apply Qnot_eq_sym, Qlt_not_eq, Qpow2_pos. Qed.

Lemma Qpow2_plus (a b : Z) : (Qpow2 (a + b) == Qpow2 a * Qpow2 b)%Q.
Proof. apply Qpower_plus. discriminate. Qed.

Lemma Qpow2_inject (s : Z) : 0 <= s -> (Qpow2 s == inject_Z (2 ^ s))%Q.
Proof. intros H. symmetry. exact (Zpower_Qpower 2 s H). Qed.

Lemma Qpow2_le (a b : Z) : a <= b -> (Qpow2 a <= Qpow2 b)%Q.
Proof. intros H. apply Qpower_le_compat_l; [exact H | discriminate]. Qed.

Lemma Qpow2_lt_inv (a b : Z) : (Qpow2 a < Qpow2 b)%Q -> a < b.
Proof. intros H. apply (Qpower_lt_compat_l_inv _ _ _ H). reflexivity. Qed.

Lemma Qpow2_scale (q : Q) (a b : Z) :
  (q * Qpow2 a / Qpow2 b == q * Qpow2 (a - b))%Q.
Proof.
  assert (H : (Qpow2 a == Qpow2 (a - b) * Qpow2 b)%Q).
  { rewrite <- Qpow2_plus. now replace (a - b + b) with a by lia. }
  rewrite H. field. apply Qpow2_nonzero.
Qed.

Lemma Qnum_pos_iff (q : Q) : (0 < q)%Q <-> 0 < Qnum q.
Proof. unfold Qlt. simpl. lia. Qed.

(** [Qlog2_floor q] is the exponent [e] with [2^e <= q < 2^(e+1)]. *)
Lemma Qlog2_floor_spec (q : Q) :
  (0 < q)%Q ->
  (Qpow2 (Qlog2_floor q) <= q)%Q /\ (q < Qpow2 (Qlog2_floor q + 1))%Q.
Proof.
  intros Hq. unfold Qlog2_floor.
  set (k := Z.log2_up (Zpos (Qden q))).
  set (x := (q * inject_Z (2 ^ k))%Q).
  assert (Hk : 0 <= k) by apply Z.log2_up_nonneg.
  assert (Hden : Zpos (Qden q) <= 2 ^ k)
    by (apply Z.log2_log2_up_spec; reflexivity).
  assert (Hx1 : (1 <= x)%Q).
  { unfold x, Qle, Qlt in *. destruct q as [n d]. simpl in *. nia. }
  assert (HF : 1 <= Qfloor x).
  { change 1 with (Qfloor 1). now apply Qfloor_resp_le. }
  destruct (Z.log2_spec (Qfloor x) ltac:(lia)) as [Hlo Hhi].
  set (L := Z.log2 (Qfloor x)) in *.
  assert (HL : 0 <= L) by apply Z.log2_nonneg.
  assert (Hxk : (x == q * Qpow2 k)%Q)
    by (unfold x; now rewrite (Qpow2_inject k Hk)).
  assert (H1 : (Qpow2 L <= x)%Q).
  { rewrite (Qpow2_inject L HL).
    apply Qle_trans with (inject_Z (Qfloor x)); [|apply Qfloor_le].
    now rewrite <- Zle_Qle. }
  assert (H2 : (x < Qpow2 (L + 1))%Q).
  { rewrite (Qpow2_inject (L + 1)) by lia.
    apply Qlt_le_trans with (inject_Z (Qfloor x + 1)); [apply Qlt_floor|].
    rewrite <- Zle_Qle. replace (L + 1) with (Z.succ L) by lia. lia. }
  rewrite Hxk in H1, H2. split.
  - apply (Qmult_le_r _ _ (Qpow2 k) (Qpow2_pos k)).
    rewrite <- Qpow2_plus. now replace (L - k + k) with L by lia.
  - apply (Qmult_lt_r _ _ (Qpow2 k) (Qpow2_pos k)).
    rewrite <- Qpow2_plus. now replace (L - k + 1 + k) with (L + 1) by lia.
Qed.

Lemma Qlog2_floor_unique (q : Q) (e : Z) :
  (Qpow2 e <= q)%Q -> (q < Qpow2 (e + 1))%Q -> Qlog2_floor q = e.
Proof.
  intros Hlo Hhi.
  assert (Hq : (0 < q)%Q)
    by (eapply Qlt_le_trans; [apply (Qpow2_pos e) | exact Hlo]).
  destruct (Qlog2_floor_spec q Hq) as [Hlo' Hhi'].
  pose proof (Qpow2_lt_inv _ _ (Qle_lt_trans _ _ _ Hlo Hhi')).
  pose proof (Qpow2_lt_inv _ _ (Qle_lt_trans _ _ _ Hlo' Hhi)).
  lia.
Qed.

Lemma round_half_even_Z (x : Q) (m : Z) :
  (x == inject_Z m)%Q -> round_half_even x = m.
Proof.
  intros H. unfold round_half_even. cbv zeta.
  rewrite (Qfloor_comp _ _ H), Qfloor_Z.
  assert (E : (x - inject_Z m == 0)%Q) by (rewrite H; ring).
  now rewrite (Qcompare_comp _ _ E _ _ (Qeq_refl (1 # 2))).
Qed.

Lemma round_half_even_bounds (x : Q) :
  Qfloor x <= round_half_even x <= Qfloor x + 1.
Proof.
  unfold round_half_even. cbv zeta.
  destruct (Qcompare (x - inject_Z (Qfloor x)) (1 # 2));
    try destruct (Z.even (Qfloor x)); lia.
Qed.

(** A positive number of binary64 is its own rounding. *)
Lemma b64_round_pos_fixed (q : Q) (m s : Z) :
  0 < m <= 2 ^ 53 -> -1074 <= s -> (q == inject_Z m * Qpow2 s)%Q ->
  (b64_round_pos q == q)%Q.
Proof.
  intros Hm Hs Hq.
  destruct (Z.log2_spec m ltac:(lia)) as [Hlo Hhi].
  set (L := Z.log2 m) in *.
  assert (HL : 0 <= L) by apply Z.log2_nonneg.
  assert (HL53 : L <= 53) by (apply (Z.pow_le_mono_r_iff 2); lia).
  assert (He : Qlog2_floor q = L + s).
  { apply Qlog2_floor_unique; rewrite Hq.
    - rewrite Qpow2_plus.
      apply Qmult_le_compat_r; [|apply Qlt_le_weak, Qpow2_pos].
      rewrite (Qpow2_inject L HL). now rewrite <- Zle_Qle.
    - replace (L + s + 1) with (L + 1 + s) by lia. rewrite Qpow2_plus.
      apply Qmult_lt_compat_r; [apply Qpow2_pos|].
      rewrite (Qpow2_inject (L + 1)) by lia. rewrite <- Zlt_Qlt.
      replace (L + 1) with (Z.succ L) by lia. exact Hhi. }
  unfold b64_round_pos. rewrite He.
  set (s' := Z.max (L + s - 52) (-1074)).
  assert (Hint : exists m', (q / Qpow2 s' == inject_Z m')%Q).
  { destruct (Z_le_gt_dec s' s) as [Hle|Hgt].
    - exists (m * 2 ^ (s - s')). rewrite Hq, Qpow2_scale.
      rewrite inject_Z_mult, (Qpow2_inject (s - s')) by lia. reflexivity.
    - assert (HL' : L = 53) by lia.
      assert (Hm' : m = 2 ^ 53) by (rewrite HL' in Hlo; lia).
      assert (Hs' : s' = s + 1) by lia.
      exists (2 ^ 52). rewrite Hq, Qpow2_scale, Hm', Hs'.
      replace (s - (s + 1)) with (-1) by lia. reflexivity. }
  destruct Hint as [m' Hm'].
  rewrite (round_half_even_Z _ _ Hm'), <- Hm'. field.
  apply Qpow2_nonzero.
Qed.

Lemma representable_sign (q : Q) (m s : Z) :
  (q == inject_Z m * Qpow2 s)%Q -> (0 < q)%Q -> 0 < m.
Proof.
  intros Hq Hq0. rewrite Hq in Hq0.
  destruct (Z_lt_le_dec 0 m) as [|Hle]; [assumption|exfalso].
  apply (Qlt_irrefl 0). eapply Qlt_le_trans; [exact Hq0|].
  rewrite <- (Qmult_0_l (Qpow2 s)).
  apply Qmult_le_compat_r; [|apply Qlt_le_weak, Qpow2_pos].
  change 0%Q with (inject_Z 0). now rewrite <- Zle_Qle.
Qed.

(** Rounding leaves the numbers of binary64 as they are. *)
Lemma b64_round_fixed (q : Q) : b64_representable q -> b64_round q = Qred q.
Proof.
  intros (m & s & Hm & Hs & Hq). unfold b64_round. apply Qred_complete.
  destruct (Qnum q) as [|p|p] eqn:E.
  - unfold Qeq. simpl. lia.
  - assert (Hq0 : (0 < q)%Q) by (apply Qnum_pos_iff; lia).
    pose proof (representable_sign q m s Hq Hq0).
    apply (b64_round_pos_fixed q m s); try assumption. lia.
  - assert (Hq0 : (0 < - q)%Q) by (apply Qnum_pos_iff; simpl; lia).
    assert (Hq' : (- q == inject_Z (- m) * Qpow2 s)%Q)
      by (rewrite Hq, inject_Z_opp; ring).
    pose proof (representable_sign (- q) (- m) s Hq' Hq0).
    rewrite (b64_round_pos_fixed (- q) (- m) s); try assumption; [ring|lia].
Qed.

Lemma b64_round_pos_representable (q : Q) :
  (0 < q)%Q ->
  exists m, 0 <= m <= 2 ^ 53
            /\ b64_round_pos q
               = (inject_Z m
                  * Qpow2 (Z.max (Qlog2_floor q - 52) (-1074)))%Q.
Proof.
  intros Hq. unfold b64_round_pos.
  set (s := Z.max (Qlog2_floor q - 52) (-1074)).
  set (x := (q / Qpow2 s)%Q).
  exists (round_half_even x). split; [|reflexivity].
  destruct (Qlog2_floor_spec q Hq) as [_ Hhi].
  pose proof (round_half_even_bounds x) as Hr.
  assert (Hx0 : (0 <= x)%Q).
  { unfold x. apply Qle_shift_div_l; [apply Qpow2_pos|].
    rewrite Qmult_0_l. now apply Qlt_le_weak. }
  assert (Hx1 : (x < inject_Z (2 ^ 53))%Q).
  { unfold x. apply Qlt_shift_div_r; [apply Qpow2_pos|].
    rewrite <- (Qpow2_inject 53) by lia. rewrite <- Qpow2_plus.
    eapply Qlt_le_trans; [exact Hhi|]. apply Qpow2_le. lia. }
  assert (Hf0 : 0 <= Qfloor x).
  { change 0 with (Qfloor 0). now apply Qfloor_resp_le. }
  assert (Hf1 : Qfloor x < 2 ^ 53).
  { rewrite Zlt_Qlt. eapply Qle_lt_trans; [apply Qfloor_le | exact Hx1]. }
  lia.
Qed.

Lemma b64_round_representable (q : Q) : b64_representable (b64_round q).
Proof.
  unfold b64_round. destruct (Qnum q) as [|p|p] eqn:E.
  - exists 0, 0. split; [simpl; lia|]. split; [lia|]. reflexivity.
  - assert (Hq0 : (0 < q)%Q) by (apply Qnum_pos_iff; lia).
    destruct (b64_round_pos_representable q Hq0) as (m & Hm & ->).
    exists m, (Z.max (Qlog2_floor q - 52) (-1074)).
    split; [lia|]. split; [lia|]. apply Qred_correct.
  - assert (Hq0 : (0 < - q)%Q) by (apply Qnum_pos_iff; simpl; lia).
    destruct (b64_round_pos_representable (- q) Hq0) as (m & Hm & ->).
    exists (- m), (Z.max (Qlog2_floor (- q) - 52) (-1074)).
    split; [lia|]. split; [lia|].
    rewrite Qred_correct, inject_Z_opp. ring.
Qed.

Lemma Qred_b64_round (q : Q) : Qred (b64_round q) = b64_round q.
Proof. unfold b64_round. apply Qred_complete, Qred_correct. Qed.

(** Rounding twice is rounding once. *)
Lemma b64_round_idempotent (q : Q) : b64_round (b64_round q) = b64_round q.
Proof.
  rewrite (b64_round_fixed _ (b64_round_representable q)).
  apply Qred_b64_round.
Qed.

(** [x + 0.0] is [x]. *)
Lemma b64_add_0_r (q : Q) : b64_add (b64_round q) 0 = b64_round q.
Proof.
  unfold b64_add. rewrite <- (b64_round_idempotent q) at 2.
  rewrite !(b64_round_fixed (b64_round q) (b64_round_representable q)).
  rewrite b64_round_fixed.
  - apply Qred_complete. ring.
  - destruct (b64_round_representable q) as (m & s & Hm & Hs & Hq).
    exists m, s. split; [exact Hm|]. split; [exact Hs|].
    rewrite <- Hq. ring.
Qed.

Lemma Qred_inject_Z (z : Z) : Qred (inject_Z z) = inject_Z z.
Proof.
  unfold Qred, inject_Z.
  pose proof (Z.ggcd_gcd z 1) as Hg.
  pose proof (Z.ggcd_correct_divisors z 1) as Hd.
  destruct (Z.ggcd z 1) as (g & q1 & q2). simpl in *.
  rewrite Z.gcd_1_r in Hg. subst g. destruct Hd as (H1 & H2).
  replace q1 with z by lia. replace q2 with 1 by lia. reflexivity.
Qed.

(** The integers of at most 53 bits are numbers of binary64. *)
Lemma b64_round_int (z : Z) :
  Z.abs z <= 2 ^ 53 -> b64_round (inject_Z z) = inject_Z z.
Proof.
  intros Hz. rewrite b64_round_fixed.
  - apply Qred_inject_Z.
  - exists z, 0. split; [exact Hz|]. split; [lia|].
    change (Qpow2 0) with 1%Q. ring.
Qed.

(** Rounding keeps the sign. *)
Lemma b64_round_nonneg (q : Q) : (0 <= q)%Q -> (0 <= b64_round q)%Q.
Proof.
  intros Hq. unfold b64_round. rewrite Qred_correct.
  destruct (Qnum q) as [|p|p] eqn:E.
  - apply Qle_refl.
  - assert (Hq0 : (0 < q)%Q) by (apply Qnum_pos_iff; lia).
    destruct (b64_round_pos_representable q Hq0) as (m & Hm & ->).
    apply Qmult_le_0_compat; [|apply Qlt_le_weak, Qpow2_pos].
    change 0%Q with (inject_Z 0). rewrite <- Zle_Qle. lia.
  - exfalso. unfold Qle in Hq. simpl in Hq. lia.
Qed.

Lemma b64_round_nonpos (q : Q) : (q <= 0)%Q -> (b64_round q <= 0)%Q.
Proof.
  intros Hq. unfold b64_round. rewrite Qred_correct.
  destruct (Qnum q) as [|p|p] eqn:E.
  - apply Qle_refl.
  - exfalso. unfold Qle in Hq. simpl in Hq. lia.
  - assert (Hq0 : (0 < - q)%Q) by (apply Qnum_pos_iff; simpl; lia).
    destruct (b64_round_pos_representable (- q) Hq0) as (m & Hm & ->).
    apply (Qopp_le_compat 0).
    apply Qmult_le_0_compat; [|apply Qlt_le_weak, Qpow2_pos].
    change 0%Q with (inject_Z 0). rewrite <- Zle_Qle. lia.
Qed.

(** The values that Python prints for [0.1] and [2/3]. *)
Example b64_round_tenth :
  b64_round (1 # 10) = (3602879701896397 # 36028797018963968)%Q
  /\ b64_round (2 # 3) = (6004799503160661 # 9007199254740992)%Q.
Proof. split; vm_compute; reflexivity. Qed.

(** ** Chunks *)

Lemma chunks_fuel_spec {A : Type} (n : nat) :
  (0 < n)%nat ->
  forall (fuel m : nat) (l : list A),
    length l = (m * n)%nat -> (length l <= fuel)%nat ->
    length (chunks_fuel fuel n l) = m
    /\ Forall (fun c => length c = n) (chunks_fuel fuel n l)
    /\ concat (chunks_fuel fuel n l) = l.
Proof.
  intros Hn. induction fuel as [|fuel IH]; intros m l Hl Hf.
  - destruct l; simpl in *; [|lia].
    destruct m; [auto | simpl in Hl; lia].
  - destruct l as [|x l'].
    + simpl in *. destruct m; [auto | simpl in Hl; lia].
    + destruct m as [|m]; [simpl in Hl; discriminate|].
      assert (Hsk : length (skipn n (x :: l')) = (m * n)%nat).
      { rewrite length_skipn, Hl. simpl. lia. }
      assert (Hfi : length (firstn n (x :: l')) = n).
      { rewrite length_firstn, Hl. simpl. lia. }
      destruct (IH m (skipn n (x :: l')) Hsk) as (H1 & H2 & H3).
      { rewrite Hsk. simpl in Hf, Hl. nia. }
      change (chunks_fuel (S fuel) n (x :: l'))
        with (firstn n (x :: l') :: chunks_fuel fuel n (skipn n (x :: l'))).
      cbn [length concat]. repeat split.
      * now rewrite H1.
      * constructor; assumption.
      * rewrite H3. apply firstn_skipn.
Qed.

Lemma chunks_spec {A : Type} (n m : nat) (l : list A) :
  (0 < n)%nat -> length l = (m * n)%nat ->
  length (chunks n l) = m
  /\ Forall (fun c => length c = n) (chunks n l)
  /\ concat (chunks n l) = l.
Proof.
  intros Hn Hl. unfold chunks. apply chunks_fuel_spec; auto.
Qed.

Lemma chunks_head {A : Type} (n : nat) (x : A) (l : list A) :
  exists rest, chunks n (x :: l) = firstn n (x :: l) :: rest.
Proof. unfold chunks. simpl length. cbn [chunks_fuel]. eauto. Qed.

(** The divisibility test of [reshape], on naturals. *)
Lemma mod_zero_multiple (n d : Z) :
  0 < d -> 0 <= n -> n mod d = 0 ->
  Z.to_nat n = (Z.to_nat (n / d) * Z.to_nat d)%nat.
Proof.
  intros Hd Hn Hm.
  assert (Hq : 0 <= n / d) by (apply Z.div_pos; lia).
  rewrite <- Z2Nat.inj_mul by lia. f_equal.
  pose proof (Z.div_mod n d ltac:(lia)). lia.
Qed.

Lemma reshape_ok {A : Type} (a : list A) (d : Z) :
  0 < d -> len a mod d = 0 ->
  reshape a d = Ok (chunks (Z.to_nat d) a)
  /\ length (chunks (Z.to_nat d) a) = Z.to_nat (len a / d)
  /\ Forall (fun c => length c = Z.to_nat d) (chunks (Z.to_nat d) a)
  /\ concat (chunks (Z.to_nat d) a) = a.
Proof.
  intros Hd Hm. split.
  - unfold reshape. destruct (Z.leb_spec d 0); [lia|].
    rewrite Hm. reflexivity.
  - apply chunks_spec; [lia|].
    rewrite <- (mod_zero_multiple (len a) d Hd (len_nonneg a) Hm).
    unfold len. now rewrite Nat2Z.id.
Qed.

Lemma reshape_error {A : Type} (a : list A) (d : Z) :
  d <= 0 \/ len a mod d <> 0 -> reshape a d = Raise ValueError.
Proof.
  intros H. unfold reshape. destruct (Z.leb_spec d 0); [reflexivity|].
  destruct (Z.eqb_spec (len a mod d) 0); [lia | reflexivity].
Qed.

(** ** Packed symbol values *)

Lemma pack_byte_range (bits : list bool) :
  0 <= pack_byte bits < 2 ^ len bits.
Proof.
  induction bits as [|b bits IH].
  - simpl. lia.
  - unfold len in *. cbn [pack_byte length].
    rewrite Nat2Z.inj_succ, Z.pow_succ_r by lia.
    destruct b; simpl Z.b2z; lia.
Qed.

Lemma getitem0_packbits (data : list bool) :
  data <> [] -> getitem0 (packbits_little data) = Ok (symbol_value data).
Proof.
  destruct data as [|b data]; [congruence|]. intros _.
  unfold packbits_little, symbol_value.
  destruct (chunks_head 8 b data) as [rest ->]. reflexivity.
Qed.

Lemma symbol_value_small (data : list bool) :
  (length data <= 8)%nat -> symbol_value data = pack_byte data.
Proof. intros H. unfold symbol_value. now rewrite firstn_all2. Qed.

Lemma symbol_value_range (data : list bool) (B : Z) :
  len data = B -> B <= 8 -> 0 <= symbol_value data <= 2 ^ B - 1.
Proof.
  intros HB H8. rewrite symbol_value_small by (unfold len in HB; lia).
  pose proof (pack_byte_range data) as H. rewrite HB in H. lia.
Qed.

(** Below the byte 255 the increment does not wrap. *)
Lemma uint8_add_small (v : Z) : 0 <= v < 255 -> uint8_add v 1 = v + 1.
Proof. intros H. unfold uint8_add. apply Z.mod_small. lia. Qed.

Lemma symbol_value_incr (data : list bool) (B : Z) :
  len data = B -> B <= 7 ->
  uint8_add (symbol_value data) 1 = symbol_value data + 1.
Proof.
  intros HB H7. apply uint8_add_small.
  assert (H : 0 <= symbol_value data <= 2 ^ B - 1)
    by (apply symbol_value_range; [assumption | lia]).
  assert (2 ^ B <= 2 ^ 7) by (apply Z.pow_le_mono_r; lia).
  change (2 ^ 7) with 128 in *. lia.
Qed.

(** ** Slices *)

Lemma slice_index_nonneg (n i : Z) :
  0 <= n -> 0 <= i -> slice_index n i = Z.min i n.
Proof. intros _ Hi. unfold slice_index. destruct (Z.ltb_spec i 0); lia. Qed.


Lemma setslice_exact {A : Type} (a : list A) (start stop : Z) (vals : list A) :
  length vals = slice_count a start stop ->
  setslice a start stop vals
  = Ok (firstn (slice_start a start) a ++ vals
        ++ skipn (slice_start a start + slice_count a start stop) a).
Proof.
  intros H. unfold setslice. rewrite <- H.
  destruct vals as [|x [|y vals]]; try reflexivity.
  now rewrite Nat.eqb_refl.
Qed.

Lemma nth_error_splice {A : Type} (a vals : list A) (i k : nat) :
  (i + length vals <= length a)%nat ->
  nth_error (firstn i a ++ vals ++ skipn (i + length vals) a) k
  = if (i <=? k)%nat && (k <? i + length vals)%nat
    then nth_error vals (k - i)
    else nth_error a k.
Proof.
  intros Hle.
  assert (Hfi : length (firstn i a) = i) by (apply firstn_length_le; lia).
  rewrite nth_error_app, Hfi.
  destruct (Nat.ltb_spec k i) as [Hk|Hk].
  - rewrite nth_error_firstn.
    destruct (Nat.leb_spec i k); [lia|]. simpl.
    destruct (Nat.ltb_spec k i); [reflexivity | lia].
  - destruct (Nat.leb_spec i k); [|lia]. simpl.
    rewrite nth_error_app.
    destruct (Nat.ltb_spec (k - i) (length vals));
      destruct (Nat.ltb_spec k (i + length vals)); try lia; try reflexivity.
    rewrite nth_error_skipn. f_equal. lia.
Qed.

Lemma covers_iff (self : DigitalModulation) (m idx : Z) (k : nat) :
  covers self m idx k = true
  <-> idx * _oversampling self <= Z.of_nat k < idx * _oversampling self + m.
Proof.
  unfold covers, in_slice. rewrite andb_true_iff, Z.leb_le, Z.ltb_lt.
  reflexivity.
Qed.

(** * The synthesis loop *)

Section Loop.

Variable self : DigitalModulation.

Local Abbreviation ts := (sample_points_s self).
Local Abbreviation os := (_oversampling self).

(** One segment: the samples of the slice are recomputed from their
    instants, the others are kept, the length is unchanged. *)
Lemma write_segment_spec {X : Type} (f : Q -> X) (start stop : Z)
  (w : list X) :
  length w = length ts -> 0 <= start -> 0 <= stop ->
  exists w1,
    write_segment self f start stop w = Ok w1
    /\ length w1 = length w
    /\ forall k, nth_error w1 k
                 = if in_slice start stop k
                   then option_map f (nth_error ts k)
                   else nth_error w k.
Proof.
  intros Hlen Hstart Hstop. unfold write_segment.
  set (vals := map f (getslice ts start stop)).
  assert (Hi : slice_start w start = slice_start ts start)
    by (unfold slice_start, len; now rewrite Hlen).
  assert (Hc : slice_count w start stop = slice_count ts start stop)
    by (unfold slice_count, len; now rewrite Hlen).
  assert (Hbound : (slice_start ts start + slice_count ts start stop
                    <= length ts)%nat).
  { unfold slice_start, slice_count.
    rewrite !slice_index_nonneg by (try apply len_nonneg; lia).
    unfold len. lia. }
  assert (Hvals : length vals = slice_count ts start stop).
  { unfold vals, getslice. rewrite length_map, length_firstn, length_skipn.
    lia. }
  rewrite setslice_exact by congruence.
  eexists. split; [reflexivity|]. split.
  - rewrite !length_app, length_skipn, firstn_length_le; lia.
  - intros k. rewrite Hi, Hc, <- Hvals.
    rewrite nth_error_splice by (rewrite Hvals, Hlen; exact Hbound).
    rewrite Hvals. unfold in_slice.
    assert (Hs : Z.of_nat (slice_start ts start) = Z.min start (len ts)).
    { unfold slice_start.
      rewrite slice_index_nonneg by (try apply len_nonneg; lia).
      pose proof (len_nonneg ts). lia. }
    assert (He : Z.of_nat (slice_start ts start + slice_count ts start stop)
                 = Z.max (Z.min start (len ts)) (Z.min stop (len ts))).
    { unfold slice_start, slice_count.
      rewrite !slice_index_nonneg by (try apply len_nonneg; lia).
      pose proof (len_nonneg ts). lia. }
    destruct (Nat.leb_spec (slice_start ts start) k) as [H1|H1];
      destruct (Nat.ltb_spec k (slice_start ts start
                                + slice_count ts start stop)) as [H2|H2];
      destruct (Z.leb_spec start (Z.of_nat k)) as [H3|H3];
      destruct (Z.ltb_spec (Z.of_nat k) stop) as [H4|H4];
      cbn [andb]; try reflexivity; try (exfalso; unfold len in *; lia).
    + unfold vals, getslice.
      rewrite nth_error_map, nth_error_firstn, nth_error_skipn.
      destruct (Nat.ltb_spec (k - slice_start ts start)
                             (slice_count ts start stop)); [|lia].
      do 2 f_equal. lia.
    + (* in the slice, beyond the end of the arrays *)
      assert (Hk : (length ts <= k)%nat) by (unfold len in *; lia).
      rewrite (proj2 (nth_error_None ts k) Hk). simpl.
      apply nth_error_None. lia.
Qed.

Lemma writer_prev {Sym : Type} (m : Z) (syms : list Sym) :
  forall idx k prev,
    writer self m idx syms k prev
    = match writer self m idx syms k None with
      | Some data => Some data
      | None => prev
      end.
Proof.
  induction syms as [|data syms IH]; intros idx k prev; simpl.
  - reflexivity.
  - rewrite IH. rewrite (IH _ _ (if covers self m idx k then _ else None)).
    destruct (writer self m (idx + 1) syms k None); [reflexivity|].
    destruct (covers self m idx k); reflexivity.
Qed.

(** [writer] in words: no symbol covers [k], or symbol [j] does and no
    later one. *)
Lemma writer_None {Sym : Type} (m : Z) (syms : list Sym) :
  forall idx k,
    writer self m idx syms k None = None
    <-> forall j, (j < length syms)%nat ->
                  covers self m (idx + Z.of_nat j) k = false.
Proof.
  induction syms as [|data syms IH]; intros idx k; simpl.
  - split; [intros _ j Hj; lia | reflexivity].
  - rewrite writer_prev. split.
    + intros H j Hj.
      destruct (writer self m (idx + 1) syms k None) eqn:E; [discriminate|].
      destruct j as [|j].
      * rewrite Z.add_0_r.
        destruct (covers self m idx k); [discriminate|reflexivity].
      * replace (idx + Z.of_nat (S j)) with (idx + 1 + Z.of_nat j) by lia.
        apply (proj1 (IH (idx + 1) k) E). lia.
    + intros H.
      assert (E : writer self m (idx + 1) syms k None = None).
      { apply IH. intros j Hj.
        replace (idx + 1 + Z.of_nat j) with (idx + Z.of_nat (S j)) by lia.
        apply H. lia. }
      rewrite E. specialize (H O ltac:(lia)). rewrite Z.add_0_r in H.
      now rewrite H.
Qed.

Lemma writer_Some {Sym : Type} (m : Z) (syms : list Sym) :
  forall idx k data,
    writer self m idx syms k None = Some data ->
    exists j, nth_error syms j = Some data
              /\ covers self m (idx + Z.of_nat j) k = true
              /\ forall j', (j < j' < length syms)%nat ->
                            covers self m (idx + Z.of_nat j') k = false.
Proof.
  induction syms as [|d syms IH]; intros idx k data; simpl.
  - discriminate.
  - rewrite writer_prev.
    destruct (writer self m (idx + 1) syms k None) eqn:E.
    + intros H. injection H as ->.
      destruct (IH _ _ _ E) as (j & Hj & Hc & Hlast).
      exists (S j). simpl. split; [assumption|]. split.
      * now replace (idx + Z.pos (Pos.of_succ_nat j))
          with (idx + 1 + Z.of_nat j) by lia.
      * intros [|j'] Hj'; [lia|].
        replace (idx + Z.of_nat (S j')) with (idx + 1 + Z.of_nat j') by lia.
        apply Hlast. lia.
    + destruct (covers self m idx k) eqn:Hc; [|discriminate].
      intros H. injection H as ->. exists O. simpl. split; [reflexivity|].
      split; [now rewrite Z.add_0_r|].
      intros [|j'] Hj'; [lia|].
      replace (idx + Z.of_nat (S j')) with (idx + 1 + Z.of_nat j') by lia.
      apply (proj1 (writer_None m syms (idx + 1) k) E). lia.
Qed.

(** The loop of the four modulators, for any body that writes one segment
    per symbol. *)
Lemma for_enumerate_segments {X Sym : Type} (sample : Sym -> Q -> X)
  (body : Z -> Sym -> list X -> result (list X)) (m : Z) :
  0 <= os -> 0 <= m ->
  forall (syms : list Sym) (idx : Z) (w : list X),
    0 <= idx -> length w = length ts ->
    (forall i data v, In data syms ->
       body i data v
       = write_segment self (sample data) (i * os) (i * os + m) v) ->
    exists w',
      for_enumerate body idx syms w = Ok w'
      /\ length w' = length ts
      /\ forall k, nth_error w' k
                   = match writer self m idx syms k None with
                     | Some data => option_map (sample data) (nth_error ts k)
                     | None => nth_error w k
                     end.
Proof.
  intros Hos Hm.
  induction syms as [|data syms IH]; intros idx w Hidx Hlen Hbody.
  - exists w. simpl. auto.
  - destruct (write_segment_spec (sample data) (idx * os) (idx * os + m)
                w Hlen) as (w1 & Hw1 & Hlen1 & Hnth1); [nia | nia |].
    destruct (IH (idx + 1) w1) as (w' & Hw' & Hlen' & Hnth');
      [lia | congruence | intros; apply Hbody; now right |].
    exists w'. split; [|split; [assumption|]].
    + cbn [for_enumerate]. rewrite Hbody by now left.
      rewrite Hw1. exact Hw'.
    + intros k. rewrite Hnth'. cbn [writer].
      rewrite (writer_prev m syms (idx + 1) k
                 (if covers self m idx k then Some data else None)).
      destruct (writer self m (idx + 1) syms k None); [reflexivity|].
      rewrite Hnth1. unfold covers.
      destruct (in_slice (idx * os) (idx * os + m) k); reflexivity.
Qed.

(** The same, from the zero waveform and the first index. *)
Lemma for_enumerate_synthesized {X Sym : Type} (zero : X)
  (sample : Sym -> Q -> X) (body : Z -> Sym -> list X -> result (list X))
  (m : Z) (syms : list Sym) :
  0 <= os -> 0 <= m ->
  (forall i data v, In data syms ->
     body i data v
     = write_segment self (sample data) (i * os) (i * os + m) v) ->
  exists w,
    for_enumerate body 0 syms (zeros_like zero ts) = Ok w
    /\ synthesized self zero m syms sample w.
Proof.
  intros Hos Hm Hbody.
  destruct (for_enumerate_segments sample body m Hos Hm syms 0
              (zeros_like zero ts) ltac:(lia) (zeros_like_length zero ts)
              Hbody) as (w & Hw & Hlen & Hnth).
  exists w. split; [exact Hw|]. split; [exact Hlen|].
  intros k t Hk. rewrite Hnth, zeros_like_nth_error, Hk.
  destruct (writer self m 0 syms k None); reflexivity.
Qed.

Lemma synthesized_sample {X Sym : Type} (zero : X) (m : Z) (syms : list Sym)
  (sample : Sym -> Q -> X) (w : list X) (k : nat) (x : X) :
  synthesized self zero m syms sample w -> nth_error w k = Some x ->
  exists t,
    nth_error ts k = Some t
    /\ x = match writer self m 0 syms k None with
           | Some data => sample data t
           | None => zero
           end.
Proof.
  intros (Hlen & Hnth) Hx.
  destruct (nth_error ts k) as [t|] eqn:Ht.
  - exists t. split; [reflexivity|]. rewrite (Hnth k t Ht) in Hx. congruence.
  - apply nth_error_None in Ht. rewrite <- Hlen in Ht.
    apply nth_error_None in Ht. congruence.
Qed.

End Loop.

(** A waveform all of whose symbols are sent as zeros. *)
Lemma synthesized_all_zero {X Sym : Type} (self : DigitalModulation)
  (zero : X) (m : Z) (syms : list Sym) (sample : Sym -> Q -> X) (w : list X) :
  (forall data t, In data syms -> sample data t = zero) ->
  synthesized self zero m syms sample w ->
  w = zeros_like zero (sample_points_s self).
Proof.
  intros Hz (Hlen & Hnth). apply nth_error_ext. intros k.
  rewrite zeros_like_nth_error.
  destruct (nth_error (sample_points_s self) k) as [t|] eqn:Ht.
  - rewrite (Hnth k t Ht). simpl. f_equal.
    destruct (writer self m 0 syms k None) as [data|] eqn:W; [|reflexivity].
    apply writer_Some in W. destruct W as (j & Hj & _).
    apply Hz. exact (nth_error_In _ _ Hj).
  - simpl. apply nth_error_None. rewrite Hlen. now apply nth_error_None.
Qed.

(** * The four modulators *)

Section Modulators.

Variable self : DigitalModulation.
Hypothesis Hvalid : valid_config self.

Variable data_vec : list Z.
Hypothesis Hnonempty : data_vec <> [].

Lemma periods_per_bit_ok :
  periods_per_bit self data_vec = Ok (cycles self data_vec).
Proof.
  unfold periods_per_bit, floordiv, cycles.
  destruct (Z.eqb_spec (len data_vec) 0) as [H|H]; [|reflexivity].
  apply len_zero_iff in H. contradiction.
Qed.

Lemma cycles_nonneg : 0 <= cycles self data_vec.
Proof.
  destruct Hvalid as (Hf & Hd & _). unfold cycles.
  change 0 with (Qfloor 0). apply Qfloor_resp_le.
  assert (Hn : (0 < inject_Z (len data_vec))%Q).
  { change 0%Q with (inject_Z 0). rewrite <- Zlt_Qlt.
    pose proof (len_nonneg data_vec).
    assert (len data_vec <> 0) by (rewrite len_zero_iff; assumption). lia. }
  apply Qlt_le_weak. apply Qlt_shift_div_l; [assumption|].
  rewrite Qmult_0_l. apply Qmult_lt_0_compat; assumption.
Qed.

Lemma oversampling_nonneg : 0 <= _oversampling self.
Proof. destruct Hvalid as (_ & _ & Hos). lia. Qed.

Lemma mod_samples_nonneg :
  0 <= mod_samples_per_bit self (cycles self data_vec).
Proof.
  unfold mod_samples_per_bit.
  pose proof cycles_nonneg. pose proof oversampling_nonneg. nia.
Qed.

Variable B : Z.

Lemma symbols_rows :
  0 < B -> len data_vec mod B = 0 ->
  reshape (astype_bool data_vec) B = Ok (symbols data_vec B)
  /\ length (symbols data_vec B) = Z.to_nat (len data_vec / B)
  /\ Forall (fun data => length data = Z.to_nat B) (symbols data_vec B).
Proof.
  intros HB Hmod. unfold symbols.
  assert (Hmod' : len (astype_bool data_vec) mod B = 0)
    by (unfold len; now rewrite astype_bool_length).
  destruct (reshape_ok (astype_bool data_vec) B HB Hmod')
    as (H1 & H2 & H3 & _).
  repeat split; try assumption.
  rewrite H2. unfold len. now rewrite astype_bool_length.
Qed.

Lemma row_nonempty (data : list bool) :
  0 < B -> len data_vec mod B = 0 ->
  In data (symbols data_vec B) -> data <> [].
Proof.
  intros HB Hmod Hin. destruct (symbols_rows HB Hmod) as (_ & _ & Hall).
  rewrite Forall_forall in Hall. specialize (Hall _ Hin).
  intros ->. simpl in Hall. lia.
Qed.

(** The symbol written last over a sample is one of the rows, [B] bits
    wide. *)
Lemma writer_row (m : Z) (k : nat) (data : list bool) :
  0 < B -> len data_vec mod B = 0 ->
  writer self m 0 (symbols data_vec B) k None = Some data ->
  In data (symbols data_vec B) /\ len data = B.
Proof.
  intros HB Hmod W. apply writer_Some in W. destruct W as (j & Hj & _).
  apply nth_error_In in Hj. split; [assumption|].
  destruct (symbols_rows HB Hmod) as (_ & _ & Hall).
  rewrite Forall_forall in Hall. unfold len. rewrite (Hall _ Hj). lia.
Qed.

(** The prefix common to the three real-valued modulators, then the loop. *)
Ltac run_modulator HB Hmod :=
  rewrite (bind_ok _ _ _ periods_per_bit_ok);
  rewrite (bind_ok _ _ _ (proj1 (symbols_rows HB Hmod)));
  apply for_enumerate_synthesized;
  [ exact oversampling_nonneg
  | exact mod_samples_nonneg
  | let Hin := fresh "Hin" in
    intros ? ? ? Hin;
    rewrite (getitem0_packbits _ (row_nonempty _ HB Hmod Hin));
    reflexivity ].

Lemma get_ask_mod_spec :
  0 < B -> len data_vec mod B = 0 ->
  exists w,
    get_ask_mod self data_vec B = Ok w
    /\ synthesized self 0%R (mod_samples_per_bit self (cycles self data_vec))
         (symbols data_vec B) (ask_symbol self B) w.
Proof. intros HB Hmod. unfold get_ask_mod. run_modulator HB Hmod. Qed.

Lemma get_psk_mod_spec :
  0 < B -> len data_vec mod B = 0 ->
  exists w,
    get_psk_mod self data_vec B = Ok w
    /\ synthesized self 0%R (mod_samples_per_bit self (cycles self data_vec))
         (symbols data_vec B) (psk_symbol self B) w.
Proof. intros HB Hmod. unfold get_psk_mod. run_modulator HB Hmod. Qed.

Lemma get_fsk_mod_spec (frequency_span : Q) :
  0 < B -> len data_vec mod B = 0 ->
  exists w,
    get_fsk_mod self data_vec frequency_span B = Ok w
    /\ synthesized self 0%R (mod_samples_per_bit self (cycles self data_vec))
         (symbols data_vec B) (fsk_symbol self frequency_span B) w.
Proof. intros HB Hmod. unfold get_fsk_mod. run_modulator HB Hmod. Qed.

End Modulators.

(** For an even [B], the QAM row is [B] bits wide. *)
Lemma even_width (B : Z) : Z.even B = true -> 2 * (B / 2) = B.
Proof.
  intros H. apply Z.even_spec in H. destruct H as [q ->].
  rewrite (Z.mul_comm 2 q), Z.div_mul by lia. lia.
Qed.

Section Qam.

Variable self : DigitalModulation.
Hypothesis Hvalid : valid_config self.

Variable data_vec : list Z.
Hypothesis Hnonempty : data_vec <> [].

Variable B : Z.
Hypothesis Hhalf : 0 < B / 2.
Hypothesis Hmod : len data_vec mod (2 * (B / 2)) = 0.

Lemma qam_width_pos : 0 < 2 * (B / 2).
Proof. lia. Qed.

Lemma qam_rows :
  reshape3 (astype_bool data_vec) (B / 2) = Ok (qam_symbols data_vec B)
  /\ length (qam_symbols data_vec B) = Z.to_nat (len data_vec / (2 * (B / 2))).
Proof.
  destruct (symbols_rows data_vec (2 * (B / 2)) qam_width_pos Hmod)
    as (H1 & H2 & _).
  unfold reshape3. rewrite (bind_ok _ _ _ H1). split; [reflexivity|].
  unfold qam_symbols. now rewrite length_map.
Qed.

(** Flattening a [2 x B//2] row gives back its bits. *)
Lemma qam_row_flat (data : list (list bool)) :
  In data (qam_symbols data_vec B) ->
  In (concat data) (symbols data_vec (2 * (B / 2))) /\ concat data <> [].
Proof.
  unfold qam_symbols. rewrite in_map_iff. intros (row & <- & Hin).
  destruct (symbols_rows data_vec (2 * (B / 2)) qam_width_pos Hmod)
    as (_ & _ & Hall).
  rewrite Forall_forall in Hall. pose proof (Hall _ Hin) as Hrow.
  assert (Hlen : length row = (2 * Z.to_nat (B / 2))%nat)
    by (rewrite Hrow; lia).
  destruct (chunks_spec (Z.to_nat (B / 2)) 2 row) as (_ & _ & Hcat);
    [lia | lia |].
  rewrite Hcat. split; [assumption|].
  intros ->. simpl in Hlen. lia.
Qed.

Lemma get_qam_mod_spec :
  exists w,
    get_qam_mod self data_vec B = Ok w
    /\ synthesized self (0%R, 0%R)
         (mod_samples_per_bit self (cycles self data_vec))
         (qam_symbols data_vec B) (qam_symbol self B) w.
Proof.
  unfold get_qam_mod.
  rewrite (bind_ok _ _ _ (periods_per_bit_ok self data_vec Hnonempty)).
  rewrite (bind_ok _ _ _ (proj1 qam_rows)).
  apply for_enumerate_synthesized.
  - exact (oversampling_nonneg self Hvalid).
  - exact (mod_samples_nonneg self Hvalid data_vec Hnonempty).
  - intros i data v Hin.
    now rewrite (getitem0_packbits _ (proj2 (qam_row_flat data Hin))).
Qed.

End Qam.

(** * The constructor *)

Lemma init_demo : init (1000000 # 1)%Q (8 # 1000000)%Q = Ok demo.
Proof. reflexivity. Qed.

Lemma demo_valid : valid_config demo.
Proof. repeat split; simpl; lia. Qed.

Lemma demo_length : length (sample_points_s demo) = 256%nat.
Proof. reflexivity. Qed.

Lemma demo_first_instant :
  nth_error (sample_points_s demo) 0
  = Some (inject_Z 0 * (1 / ((1000000 # 1) * inject_Z 32)))%Q.
Proof. reflexivity. Qed.

(** What the constructor stores. *)
Lemma init_fields (cf dur : Q) (self : DigitalModulation) :
  init cf dur = Ok self ->
  carrier_freq_hz self = (1000000 # 1)%Q
  /\ demo_duration_s self = (8 # 1000000)%Q
  /\ _oversampling self = 32
  /\ _sample_freq_hz self = (cf * inject_Z 32)%Q
  /\ _sample_period_s self = (1 / _sample_freq_hz self)%Q
  /\ sample_points_s self = arange dur (_sample_period_s self).
Proof.
  unfold init, truediv_one.
  destruct (Qeq_bool (cf * inject_Z 32) 0); [discriminate|].
  simpl. intros H. injection H as <-. simpl. repeat split.
Qed.

Lemma init_valid (cf dur : Q) (self : DigitalModulation) :
  init cf dur = Ok self -> valid_config self.
Proof.
  intros H. destruct (init_fields _ _ _ H) as (Hf & Hd & Ho & _).
  unfold valid_config. rewrite Hf, Hd, Ho. repeat split; simpl; lia.
Qed.

(** The constructor fails on a zero carrier frequency only. *)
Lemma init_defined (cf dur : Q) :
  ~ (cf == 0)%Q -> exists self, init cf dur = Ok self.
Proof.
  intros Hcf. unfold init, truediv_one.
  destruct (Qeq_bool (cf * inject_Z 32) 0) eqn:E; [|simpl; eauto].
  apply Qeq_bool_iff in E. exfalso. apply Hcf.
  apply (Qmult_integral_l (inject_Z 32)); [discriminate|].
  now rewrite Qmult_comm.
Qed.

(** The invariant holds on an instance exactly when the carrier frequency
    given to the constructor is the stored literal. *)
Lemma init_invariant_iff (cf dur : Q) (self : DigitalModulation) :
  init cf dur = Ok self ->
  ((_sample_freq_hz self
    == carrier_freq_hz self * inject_Z (_oversampling self))%Q
   <-> (cf == 1000000 # 1)%Q).
Proof.
  intros H. destruct (init_fields _ _ _ H) as (Hf & _ & Ho & Hs & _).
  rewrite Hf, Ho, Hs. split; intros E.
  - apply (@Qmult_inj_r cf (1000000 # 1) (inject_Z 32)); [discriminate|].
    exact E.
  - now rewrite E.
Qed.


Lemma arange_length (stop step : Q) :
  length (arange stop step)
  = Z.to_nat (Qceiling (b64_div (b64_round stop) (b64_round step))).
Proof. unfold arange. now rewrite length_map, length_seq. Qed.

(** [DigitalModulation(1e6, 1e-5)] has 321 sample instants, not the 320 of
    the exact quotient: the float quotient is [320.00000000000006]. *)
Example arange_rounded_quotient :
  Qceiling ((1 # 100000) / (1 / ((1000000 # 1) * inject_Z 32)))%Q = 320
  /\ length (arange (1 # 100000) (1 / ((1000000 # 1) * inject_Z 32))%Q)
     = 321%nat.
Proof. split; vm_compute; reflexivity. Qed.

(** The scenario of the demo: [ask([0,1,1,0], B=1)] has four symbols of
    two cycles, 64 samples each, at a stride of 32 samples, so that each
    segment overwrites the second half of the one before; sample 10 is
    written by symbol 0 with amplitude 1/2, sample 40 last by symbol 1 with
    amplitude 1, and nothing reaches sample 200. *)
Example demo_scenario :
  periods_per_bit demo [0; 1; 1; 0] = Ok 2
  /\ mod_samples_per_bit demo 2 = 64
  /\ symbols [0; 1; 1; 0] 1 = [[false]; [true]; [true]; [false]]
  /\ writer demo 64 0 (symbols [0; 1; 1; 0] 1) 10 None = Some [false]
  /\ writer demo 64 0 (symbols [0; 1; 1; 0] 1) 40 None = Some [true]
  /\ writer demo 64 0 (symbols [0; 1; 1; 0] 1) 200 None = None
  /\ (ask_amp_value 1 (symbol_value [false]) == 1 # 2)%Q
  /\ (ask_amp_value 1 (symbol_value [true]) == 1)%Q.
Proof. repeat split. Qed.

(** * The specification

    ** Empty input *)

(** C10: with an empty bit sequence each of the four modulators raises
    ZeroDivisionError at the computation of the cycle count, whatever the
    engine, the symbol size and the frequency span; no waveform is
    returned. *)
Theorem empty_bits_raise_zero_division
  (self : DigitalModulation) (B : Z) (frequency_span : Q) :
  periods_per_bit self [] = Raise ZeroDivisionError
  /\ get_ask_mod self [] B = Raise ZeroDivisionError
  /\ get_psk_mod self [] B = Raise ZeroDivisionError
  /\ get_fsk_mod self [] frequency_span B = Raise ZeroDivisionError
  /\ get_qam_mod self [] B = Raise ZeroDivisionError.
Proof. repeat split. Qed.

(** ** Rejected lengths *)

Lemma periods_defined (self : DigitalModulation) (data_vec : list Z) :
  data_vec <> [] -> exists p, periods_per_bit self data_vec = Ok p.
Proof.
  intros H. unfold periods_per_bit, floordiv.
  destruct (Z.eqb_spec (len data_vec) 0) as [E|E]; [|eauto].
  apply len_zero_iff in E. contradiction.
Qed.

Lemma not_multiple_nonempty (data_vec : list Z) (d : Z) :
  len data_vec mod d <> 0 -> data_vec <> [].
Proof. intros H ->. apply H. unfold len. simpl. apply Zmod_0_l. Qed.

Lemma reshape_bits_error (data_vec : list Z) (d : Z) :
  len data_vec mod d <> 0 ->
  reshape (astype_bool data_vec) d = Raise ValueError.
Proof.
  intros H. apply reshape_error. right.
  unfold len in *. now rewrite astype_bool_length.
Qed.

(** C8: a bit sequence whose length is not a multiple of the chunk size
    ([B] for ASK, PSK and FSK; the [2 * (B // 2)] bits of a row for QAM,
    which is [B] for an even [B]) makes the call raise ValueError at the
    reshape; no waveform is returned. *)
Theorem ragged_bits_raise_value_error
  (self : DigitalModulation) (data_vec : list Z) (B : Z) (frequency_span : Q) :
  (len data_vec mod B <> 0 ->
     get_ask_mod self data_vec B = Raise ValueError
     /\ get_psk_mod self data_vec B = Raise ValueError
     /\ get_fsk_mod self data_vec frequency_span B = Raise ValueError)
  /\ (len data_vec mod (2 * (B / 2)) <> 0 ->
        get_qam_mod self data_vec B = Raise ValueError)
  /\ (Z.even B = true -> len data_vec mod B <> 0 ->
        get_qam_mod self data_vec B = Raise ValueError).
Proof.
  assert (Hqam : len data_vec mod (2 * (B / 2)) <> 0 ->
                 get_qam_mod self data_vec B = Raise ValueError).
  { intros H.
    destruct (periods_defined self data_vec
                (not_multiple_nonempty data_vec _ H)) as [p Hp].
    unfold get_qam_mod, reshape3.
    now rewrite (bind_ok _ _ _ Hp), (reshape_bits_error data_vec _ H). }
  split; [|split].
  - intros H.
    destruct (periods_defined self data_vec
                (not_multiple_nonempty data_vec _ H)) as [p Hp].
    unfold get_ask_mod, get_psk_mod, get_fsk_mod.
    rewrite !(bind_ok _ _ _ Hp), (reshape_bits_error data_vec _ H).
    repeat split.
  - exact Hqam.
  - intros He H. apply Hqam. now rewrite (even_width B He).
Qed.

(** [ask([0,1,1], B=2)] on the demo engine. *)
Lemma ragged_bits_witness :
  len [0; 1; 1] mod 2 <> 0
  /\ get_ask_mod demo [0; 1; 1] 2 = Raise ValueError.
Proof.
  assert (H : len [0; 1; 1] mod 2 <> 0) by (vm_compute; discriminate).
  split; [exact H|].
  exact (proj1 (proj1 (ragged_bits_raise_value_error
                         demo [0; 1; 1] 2 (200000 # 1)%Q) H)).
Defined.

(** ** The constructor and the derived sampling values *)

(** C2, at the constructor call [DigitalModulation(carrier_freq_hz=2e6)]:
    the instance keeps [carrier_freq_hz = 1e6] while its sampling frequency
    is [2e6 * 32], so [sample_freq_hz = carrier_freq_hz * oversampling]
    does not hold on the instance. *)
Theorem init_sample_freq_drifts :
  exists self,
    init (2000000 # 1)%Q (8 # 1000000)%Q = Ok self
    /\ (carrier_freq_hz self == 1000000 # 1)%Q
    /\ (_sample_freq_hz self == 64000000 # 1)%Q
    /\ ~ (_sample_freq_hz self
          == carrier_freq_hz self * inject_Z (_oversampling self))%Q
    /\ (_sample_period_s self == 1 / _sample_freq_hz self)%Q.
Proof.
  eexists. split; [reflexivity|]. simpl. repeat split; try reflexivity.
  intros H. discriminate H.
Qed.

(** ** The constellation tables *)

(** Case analysis on an integer of a literal range, from [lo] upwards. *)
Ltac split_range v lo :=
  first
    [ exfalso; lia
    | destruct (Z.eq_dec v lo) as [-> | ?];
      [ | let lo' := eval compute in (lo + 1) in split_range v lo' ] ].

(** C9: for [M] in 4, 8, 16 every value [v] of [0 .. M-1] is a key of the
    table, no other key has its point, the inverse lookup of the point
    gives [v] back, and the three tables are the listed ones. *)
Theorem constellation_bijective (M v : Z) :
  In M [4; 8; 16] -> 0 <= v < M ->
  qam_table v M = Some (get_qam_modulation_mapping v M)
  /\ qam_inverse (get_qam_modulation_mapping v M) M = Some v
  /\ (forall v', 0 <= v' < M ->
        get_qam_modulation_mapping v' M = get_qam_modulation_mapping v M ->
        v' = v)
  /\ constellation 4
     = [(0, (1, 1)); (1, (1, -1)); (2, (-1, 1)); (3, (-1, -1))]
  /\ constellation 8
     = [(0, (3, 0)); (1, (1, 1)); (2, (-1, 1)); (3, (0, 3));
        (4, (1, -1)); (5, (0, -3)); (6, (-3, 0)); (7, (-1, -1))]
  /\ constellation 16
     = [(0, (1, 1)); (1, (3, 1)); (2, (1, 3)); (3, (3, 3));
        (4, (1, -1)); (5, (3, -1)); (6, (1, -3)); (7, (3, -3));
        (8, (-1, 1)); (9, (-3, 1)); (10, (-1, 3)); (11, (-3, 3));
        (12, (-1, -1)); (13, (-3, -1)); (14, (-1, -3)); (15, (-3, -3))].
Proof.
  intros HM Hv.
  repeat match goal with
         | |- _ /\ _ => split
         end; try reflexivity.
  - destruct HM as [<- | [<- | [<- | []]]]; split_range v 0; reflexivity.
  - destruct HM as [<- | [<- | [<- | []]]]; split_range v 0; reflexivity.
  - intros v' Hv' E.
    destruct HM as [<- | [<- | [<- | []]]]; split_range v 0;
      split_range v' 0; first [reflexivity | discriminate E].
Qed.

Lemma constellation_bijective_witness :
  In 16 [4; 8; 16] /\ 0 <= 11 < 16
  /\ qam_inverse (get_qam_modulation_mapping 11 16) 16 = Some 11.
Proof.
  assert (HM : In 16 [4; 8; 16]) by (simpl; tauto).
  assert (Hv : 0 <= 11 < 16) by lia.
  split; [exact HM|]. split; [exact Hv|].
  exact (proj1 (proj2 (@constellation_bijective 16 11 HM Hv))).
Defined.

(** The value [2^B] that the all-ones symbol is looked up with has no
    branch in any table, and neither has any value with a constellation
    size other than 4, 8 and 16. *)
Lemma qam_table_top (x : Z) : qam_table x x = None.
Proof.
  unfold qam_table.
  destruct (Z.eqb_spec x 4) as [-> | ?]; [reflexivity|].
  destruct (Z.eqb_spec x 8) as [-> | ?]; [reflexivity|].
  destruct (Z.eqb_spec x 16) as [-> | ?]; reflexivity.
Qed.

Lemma qam_table_size (value qam_idx : Z) :
  ~ In qam_idx [4; 8; 16] -> qam_table value qam_idx = None.
Proof.
  intros H. unfold qam_table.
  destruct (Z.eqb_spec qam_idx 4); [exfalso; apply H; simpl; auto|].
  destruct (Z.eqb_spec qam_idx 8); [exfalso; apply H; simpl; auto|].
  destruct (Z.eqb_spec qam_idx 16); [exfalso; apply H; simpl; auto|].
  reflexivity.
Qed.

Lemma pack_byte_ones (n : nat) :
  pack_byte (repeat true n) = 2 ^ Z.of_nat n - 1.
Proof.
  induction n as [|n IH].
  - reflexivity.
  - cbn [repeat pack_byte Z.b2z]. rewrite IH, Nat2Z.inj_succ, Z.pow_succ_r; lia.
Qed.

(** The all-ones symbol of any width up to eight bits gets the fallback. *)
Lemma qam_all_ones_unmapped (B : Z) :
  0 <= B <= 8 ->
  get_qam_modulation_mapping
    (symbol_value (repeat true (Z.to_nat B)) + 1) (2 ^ B) = (0, 0).
Proof.
  intros HB. unfold get_qam_modulation_mapping.
  rewrite symbol_value_small by (rewrite repeat_length; lia).
  rewrite pack_byte_ones, Z2Nat.id by lia.
  replace (2 ^ B - 1 + 1) with (2 ^ B) by lia.
  now rewrite qam_table_top.
Qed.

(** The lookup does not see the wrap of [packed + 1] at the byte 255: a
    row with that byte has eight bits at least, and from [B = 8] on there
    is no table. *)
Lemma qam_increment_wrap (B : Z) (row : list bool) :
  len row <= B ->
  get_qam_modulation_mapping (uint8_add (symbol_value row) 1) (2 ^ B)
  = get_qam_modulation_mapping (symbol_value row + 1) (2 ^ B).
Proof.
  intros Hlen. unfold symbol_value.
  pose proof (pack_byte_range (firstn 8 row)) as Hp.
  assert (Hl : len (firstn 8 row) <= 8 /\ len (firstn 8 row) <= len row).
  { unfold len. rewrite length_firstn. lia. }
  assert (H8 : 2 ^ len (firstn 8 row) <= 2 ^ 8)
    by (apply Z.pow_le_mono_r; lia).
  change (2 ^ 8) with 256 in H8.
  destruct (Z_lt_le_dec (pack_byte (firstn 8 row)) 255) as [Hlt|Hge].
  - now rewrite uint8_add_small by lia.
  - assert (Hfull : len (firstn 8 row) = 8).
    { destruct (Z_lt_le_dec (len (firstn 8 row)) 8) as [H7|]; [|lia].
      assert (2 ^ len (firstn 8 row) <= 2 ^ 7)
        by (apply Z.pow_le_mono_r; lia).
      change (2 ^ 7) with 128 in *. lia. }
    assert (H256 : 2 ^ 8 <= 2 ^ B) by (apply Z.pow_le_mono_r; lia).
    change (2 ^ 8) with 256 in H256.
    unfold get_qam_modulation_mapping.
    rewrite !qam_table_size; [reflexivity | simpl; lia | simpl; lia].
Qed.

(** C3, at the call [get_qam_mod([1, 1], 2)] on the demo engine: the bits
    are 0/1, their number is the symbol size and [B = 2] is even, yet the
    only symbol packs to 3, is looked up as [3 + 1 = 4] in the table of
    size 4, which has no such key, and gets the fallback [(0, 0)]: every
    sample of the returned waveform is zero. *)
Theorem qam_fallback_reached :
  qam_symbols [1; 1] 2 = [[[true]; [true]]]
  /\ getitem0 (packbits_little (concat [[true]; [true]])) = Ok 3
  /\ qam_table (3 + 1) (2 ^ 2) = None
  /\ get_qam_modulation_mapping (3 + 1) (2 ^ 2) = (0, 0)
  /\ exists w,
       get_qam_mod demo [1; 1] 2 = Ok w
       /\ length w = 256%nat
       /\ forall k, (k < 256)%nat -> nth_error w k = Some (0%R, 0%R).
Proof.
  repeat match goal with
         | |- _ /\ _ => split
         end; try reflexivity.
  destruct (get_qam_mod_spec demo demo_valid [1; 1] ltac:(discriminate) 2
              ltac:(reflexivity) ltac:(reflexivity))
    as (w & Hw & Hlen & Hnth).
  exists w. split; [exact Hw|]. split; [exact Hlen|].
  intros k Hk. unfold complex in *.
  destruct (nth_error (sample_points_s demo) k) as [t|] eqn:Ht.
  - rewrite (Hnth k t Ht). f_equal.
    destruct (writer demo _ 0 (qam_symbols [1; 1] 2) k None) as [data|] eqn:W;
      [|reflexivity].
    apply writer_Some in W. destruct W as (j & Hj & _).
    change (qam_symbols [1; 1] 2) with [[[true]; [true]]] in Hj.
    destruct j as [|[|j]]; simpl in Hj; try discriminate Hj.
    injection Hj as <-.
    unfold qam_symbol.
    change (get_qam_modulation_mapping
              (symbol_value (concat [[true]; [true]]) + 1) (2 ^ 2))
      with (0, 0).
    unfold qam_sample. f_equal; ring.
  - apply nth_error_None in Ht. rewrite demo_length in Ht. lia.
Qed.

(** ** Timing of the segments *)




(** ** Lengths *)




(** ** Phase keying *)

(** With at most 8 bits per symbol the wrap of [packed + 1] at the byte
    255 moves the phase from [2 pi] to 0: the samples are the same. *)
Lemma psk_increment_wrap
  (self : DigitalModulation) (B : Z) (data : list bool) (x : R) :
  1 <= B <= 8 -> len data = B ->
  sin (x + psk_phase_value_rad self B (uint8_add (symbol_value data) 1))
  = sin (x + psk_phase_value_rad self B (symbol_value data + 1)).
Proof.
  intros HB Hlen.
  pose proof (symbol_value_range data B Hlen ltac:(lia)) as Hr.
  assert (H8 : 2 ^ B <= 2 ^ 8) by (apply Z.pow_le_mono_r; lia).
  change (2 ^ 8) with 256 in H8.
  destruct (Z_lt_le_dec (symbol_value data) 255) as [Hlt|Hge].
  - now rewrite uint8_add_small by lia.
  - assert (Hv : symbol_value data = 255) by lia.
    assert (Hp : 2 ^ B = 256) by lia.
    rewrite Hv. unfold psk_phase_value_rad. rewrite Hp.
    change (uint8_add 255 1) with 0. change (255 + 1) with 256.
    replace (x + (start_phase_rad self + 2 * PI * 256 / 256))%R
      with (x + (start_phase_rad self + 2 * PI * 0 / 256) + 2 * INR 1 * PI)%R
      by (simpl INR; field).
    symmetry. apply sin_period.
Qed.

(** C4 as stated fails at [psk([1], B=1)] on the demo engine: sample 0 lies
    in the segment of the only symbol and is [sin(2*pi) = 0], whose
    absolute value is not 1. *)
Lemma psk_sample_not_unit :
  exists w,
    get_psk_mod demo [1] 1 = Ok w
    /\ covers demo (mod_samples_per_bit demo (cycles demo [1])) 0 0 = true
    /\ nth_error w 0 = Some (sin (2 * PI))
    /\ Rabs (sin (2 * PI)) <> 1%R.
Proof.
  destruct (get_psk_mod_spec demo demo_valid [1] ltac:(discriminate) 1
              ltac:(reflexivity) ltac:(reflexivity))
    as (w & Hw & Hlen & Hnth).
  exists w. split; [exact Hw|]. split; [reflexivity|]. split.
  - rewrite (Hnth _ _ demo_first_instant).
    change (writer demo (mod_samples_per_bit demo (cycles demo [1])) 0
              (symbols [1] 1) 0 None) with (Some [true]).
    cbv beta iota. f_equal.
    unfold psk_symbol, psk_sample, psk_phase_value_rad.
    change (symbol_value [true] + 1) with 2. change (2 ^ 1) with 2.
    cbn [start_phase_rad carrier_freq_hz demo]. f_equal.
    rewrite Q2R_mult. change (Q2R (inject_Z 0)) with (Q2R 0).
    rewrite RMicromega.Q2R_0. field.
  - rewrite sin_2PI, Rabs_R0. lra.
Qed.

(** C4, amended: in a valid PSK call the amplitude multiplier is the
    constant 1: a sample in the segment of the symbol [v] written last over
    it is [1 * sin(2 pi f_c t + phi0 + 2 pi (v + 1) / 2^B)], and every
    sample of the waveform has absolute value at most 1. *)
Theorem psk_amplitude_one
  (self : DigitalModulation) (data_vec : list Z) (B : Z) :
  valid_config self -> data_vec <> [] -> 0 < B -> len data_vec mod B = 0 ->
  exists w,
    get_psk_mod self data_vec B = Ok w
    /\ forall k x,
         nth_error w k = Some x ->
         (Rabs x <= 1)%R
         /\ forall data,
              writer self (mod_samples_per_bit self (cycles self data_vec)) 0
                     (symbols data_vec B) k None = Some data ->
              exists t,
                nth_error (sample_points_s self) k = Some t
                /\ x = (1 * sin (2 * PI * Q2R (carrier_freq_hz self) * Q2R t
                                 + (start_phase_rad self
                                    + 2 * PI * IZR (symbol_value data + 1)
                                      / IZR (2 ^ B))))%R.
Proof.
  intros Hvalid Hne HB Hmod.
  destruct (get_psk_mod_spec self Hvalid data_vec Hne B HB Hmod)
    as (w & Hw & Hsyn).
  exists w. split; [exact Hw|]. intros k x Hx.
  destruct (synthesized_sample self _ _ _ _ _ _ _ Hsyn Hx) as (t & Ht & ->).
  destruct (writer self _ 0 (symbols data_vec B) k None) as [data|].
  - split.
    + unfold psk_symbol, psk_sample. apply Rabs_le. apply SIN_bound.
    + intros data' E. injection E as <-. exists t. split; [exact Ht|].
      unfold psk_symbol, psk_sample, psk_phase_value_rad. ring.
  - split; [rewrite Rabs_R0; lra | discriminate].
Qed.

Lemma psk_amplitude_one_witness :
  valid_config demo
  /\ exists w, get_psk_mod demo [0; 1; 1; 0] 2 = Ok w.
Proof.
  assert (Hv : valid_config demo) by (repeat split; simpl; lia).
  assert (Hne : [0; 1; 1; 0] <> @nil Z) by discriminate.
  assert (HB : 0 < 2) by lia.
  assert (Hmod : len [0; 1; 1; 0] mod 2 = 0) by reflexivity.
  split; [exact Hv|].
  destruct (@psk_amplitude_one demo [0; 1; 1; 0] 2 Hv Hne HB Hmod)
    as (w & Hw & _).
  exists w. exact Hw.
Defined.

(** ** Frequency keying *)

Lemma pow2_gt_1 (B : Z) : 1 <= B -> 2 <= 2 ^ B.
Proof.
  intros H. change 2 with (2 ^ 1) at 1. apply Z.pow_le_mono_r; lia.
Qed.

Lemma b64_round_zero (q : Q) : Qnum q = 0 -> b64_round q = 0%Q.
Proof. intros H. unfold b64_round. now rewrite H. Qed.

Lemma byte_divider (B : Z) :
  1 <= B <= 8 -> b64_round (inject_Z (2 ^ B - 1)) = inject_Z (2 ^ B - 1).
Proof.
  intros HB. apply b64_round_int.
  assert (H8 : 2 ^ B <= 2 ^ 8) by (apply Z.pow_le_mono_r; lia).
  pose proof (pow2_gt_1 B ltac:(lia)).
  change (2 ^ 8) with 256 in H8. change (2 ^ 53) with 9007199254740992. lia.
Qed.

(** C5 as stated fails at three calls on the demo engine.
    [fsk([1], 0.1, B=1)]: the only symbol has the value [1 = 2^1 - 1], and
    the frequency that the code computes for it,
    [(1e6 - 0.1/2) + 1 * 0.1 / 1], is the float 1000000.0499999999; the
    float of [1e6 + 0.1/2] is the next one, 1000000.05, and the computed
    frequency is not the rational [carrier_freq_hz + span/2] either, for
    the span [0.1] or for the float in its place.
    [fsk([1], 200000, B=1)], the span an [int]: the product of the byte and
    the span is refused, the call raises OverflowError.
    [fsk([1, 1], 100, B=2)], the span an [int] that is a byte: the product
    [3 * 100] wraps to 44 and the symbol [3 = 2^2 - 1] gets the frequency
    [999950 + 44/3], below the carrier. *)
Lemma fsk_top_frequency_rounded :
  1 <= 1 <= 8 /\ len [1] mod 1 = 0 /\ (0 < 1 # 10)%Q
  /\ symbols [1] 1 = [[true]]
  /\ symbol_value [true] = 2 ^ 1 - 1
  /\ fsk_freq_value_hz demo (1 # 10) 1 (2 ^ 1 - 1)
     = Ok (8589935021496729 # 8589934592)%Q
  /\ b64_add (carrier_freq_hz demo) (b64_div (b64_round (1 # 10)) 2)
     = (4294967510748365 # 4294967296)%Q
  /\ ~ (8589935021496729 # 8589934592
        == 4294967510748365 # 4294967296)%Q
  /\ ~ (8589935021496729 # 8589934592
        == carrier_freq_hz demo + (1 # 10) / 2)%Q
  /\ ~ (8589935021496729 # 8589934592
        == carrier_freq_hz demo + b64_round (1 # 10) / 2)%Q
  /\ (exists w,
        get_fsk_mod demo [1] (1 # 10) 1 = Ok w
        /\ writer demo (mod_samples_per_bit demo (cycles demo [1])) 0
                  (symbols [1] 1) 1 None = Some [true]
        /\ nth_error w 1
           = Some (sin (2 * PI * Q2R (8589935021496729 # 8589934592)
                        * Q2R (inject_Z 1
                               * (1 / ((1000000 # 1) * inject_Z 32)))
                        + 0))%R)
  /\ get_fsk_mod demo [1] (PyInt 200000) 1 = Raise OverflowError
  /\ symbol_value [true; true] = 2 ^ 2 - 1
  /\ fsk_freq_value_hz demo (PyInt 100) 2 (2 ^ 2 - 1)
     = Ok (8589631080977749 # 8589934592)%Q
  /\ (8589631080977749 # 8589934592 < carrier_freq_hz demo)%Q.
Proof.
  assert (Hf : fsk_frequency demo (1 # 10) 1 (2 ^ 1 - 1)
               = (8589935021496729 # 8589934592)%Q)
    by (vm_compute; reflexivity).
  split; [lia|]. split; [reflexivity|]. split; [reflexivity|].
  split; [reflexivity|]. split; [reflexivity|].
  split; [exact (f_equal Ok Hf)|].
  split; [vm_compute; reflexivity|].
  split; [intros E; vm_compute in E; discriminate E|].
  split; [intros E; vm_compute in E; discriminate E|].
  split; [intros E; vm_compute in E; discriminate E|].
  split; [|split; [reflexivity|]; split; [reflexivity|];
           split; [vm_compute; reflexivity | reflexivity]].
  destruct (get_fsk_mod_spec demo demo_valid [1] ltac:(discriminate) 1
              (1 # 10)%Q ltac:(reflexivity) ltac:(reflexivity))
    as (w & Hw & _ & Hnth).
  exists w. split; [exact Hw|]. split; [reflexivity|].
  assert (Ht : nth_error (sample_points_s demo) 1
               = Some (inject_Z 1 * (1 / ((1000000 # 1) * inject_Z 32)))%Q)
    by reflexivity.
  rewrite (Hnth _ _ Ht).
  change (writer demo (mod_samples_per_bit demo (cycles demo [1])) 0
            (symbols [1] 1) 1 None) with (Some [true]).
  cbv beta iota. unfold fsk_symbol.
  change (symbol_value [true]) with (2 ^ 1 - 1). rewrite Hf.
  reflexivity.
Qed.

(** C5, amended: in a valid FSK call with a float span a sample in the
    segment of the symbol [v] written last over it is
    [sin(2 pi f t + phi0)] with [0 <= v <= 2^B - 1] and
    [f = (carrier_freq_hz - span/2) + v * span / (2^B - 1)] as the
    arithmetic of floats evaluates it, each operation rounded.  [v = 0]
    gives [carrier_freq_hz - span/2], the float [frequency_min], exactly;
    [v = 2^B - 1] gives [carrier_freq_hz + span/2] in exact arithmetic
    only. *)
Theorem fsk_frequency_mapping
  (self : DigitalModulation) (data_vec : list Z) (frequency_span : Q) (B : Z) :
  valid_config self -> data_vec <> [] -> 1 <= B <= 8 ->
  len data_vec mod B = 0 -> (0 < frequency_span)%Q ->
  let span := b64_round frequency_span in
  let frequency_min := b64_sub (carrier_freq_hz self) (b64_div span 2) in
  let f := fun v : Z =>
             b64_add frequency_min
                     (b64_div (b64_mul (inject_Z v) span)
                              (inject_Z (2 ^ B - 1))) in
  (exists w,
     get_fsk_mod self data_vec frequency_span B = Ok w
     /\ forall k t data,
          nth_error (sample_points_s self) k = Some t ->
          writer self (mod_samples_per_bit self (cycles self data_vec)) 0
                 (symbols data_vec B) k None = Some data ->
          0 <= symbol_value data <= 2 ^ B - 1
          /\ symbol_value data = pack_byte data
          /\ nth_error w k
             = Some (sin (2 * PI * Q2R (f (symbol_value data)) * Q2R t
                          + start_phase_rad self))%R)
  /\ (forall v, fsk_freq_value_hz self frequency_span B v = Ok (f v))
  /\ f 0%Z = frequency_min
  /\ (carrier_freq_hz self - span / 2
      + inject_Z (2 ^ B - 1) * span / inject_Z (2 ^ B - 1)
      == carrier_freq_hz self + span / 2)%Q.
Proof.
  intros Hvalid Hne HB Hmod Hspan span frequency_min f.
  assert (HB0 : 0 < B) by lia.
  assert (Hf : forall v, fsk_frequency self frequency_span B v = f v).
  { intros v. unfold fsk_frequency. now rewrite (byte_divider B HB). }
  split; [|split; [|split]].
  - destruct (get_fsk_mod_spec self Hvalid data_vec Hne B frequency_span
                HB0 Hmod) as (w & Hw & Hlen & Hnth).
    exists w. split; [exact Hw|]. intros k t data Ht W.
    destruct (writer_row self data_vec B _ k data HB0 Hmod W) as (_ & Hrow).
    split; [apply symbol_value_range; [assumption | lia]|].
    split; [apply symbol_value_small; unfold len in Hrow; lia|].
    rewrite (Hnth k t Ht), W. unfold fsk_symbol. rewrite Hf. reflexivity.
  - intros v. rewrite <- Hf. reflexivity.
  - unfold f, b64_mul.
    rewrite (b64_round_zero (inject_Z 0 * span)) by reflexivity.
    unfold b64_div at 1.
    rewrite (b64_round_zero (0 / inject_Z (2 ^ B - 1))) by reflexivity.
    apply b64_add_0_r.
  - assert (Hd : ~ (inject_Z (2 ^ B - 1) == 0)%Q).
    { change 0%Q with (inject_Z 0). rewrite inject_Z_injective.
      pose proof (pow2_gt_1 B ltac:(lia)). lia. }
    field. exact Hd.
Qed.

(** [fsk([0,1,1,0], 200e3, B=2)] on the demo engine: the symbol 0 is sent
    at 900 kHz. *)
Lemma fsk_frequency_mapping_witness :
  valid_config demo
  /\ fsk_freq_value_hz demo (200000 # 1) 2 0 = Ok (900000 # 1)%Q.
Proof.
  assert (Hv : valid_config demo) by (repeat split; simpl; lia).
  assert (Hne : [0; 1; 1; 0] <> @nil Z) by discriminate.
  assert (HB : 1 <= 2 <= 8) by lia.
  assert (Hmod : len [0; 1; 1; 0] mod 2 = 0) by reflexivity.
  assert (Hs : (0 < 200000 # 1)%Q) by reflexivity.
  split; [exact Hv|].
  destruct (@fsk_frequency_mapping demo [0; 1; 1; 0] (200000 # 1)%Q 2
              Hv Hne HB Hmod Hs) as (_ & Hf & H0 & _).
  rewrite (Hf 0), H0. vm_compute. reflexivity.
Defined.

(** ** Amplitude keying *)

Lemma Qdiv_pos_lt (a b p : Z) :
  0 < p -> (inject_Z a / inject_Z p < inject_Z b / inject_Z p)%Q <-> a < b.
Proof.
  intros Hp. destruct p as [|p|p]; try lia.
  unfold Qlt, Qdiv, Qmult, Qinv, inject_Z. simpl. nia.
Qed.

Lemma Qdiv_pos_le (a b p : Z) :
  0 < p -> (inject_Z a / inject_Z p <= inject_Z b / inject_Z p)%Q <-> a <= b.
Proof.
  intros Hp. destruct p as [|p|p]; try lia.
  unfold Qle, Qdiv, Qmult, Qinv, inject_Z. simpl. nia.
Qed.

(** C6, at the call [get_ask_mod([1,1,1,1,1,1,1,1], 8)] on the demo
    engine: the call is valid, with the documented maximum of 8 bits per
    symbol; the only symbol packs to the byte [255 = 2^8 - 1], the sum
    [255 + 1] wraps to 0 in [uint8], and the amplitude is [0 / 256 = 0]
    where the claim has [(255 + 1) / 256 = 1]: the symbol, whose segment
    is the samples 0 to 31, is sent as silence and the whole waveform is
    zero. *)
Theorem ask_full_byte_silent :
  let bits := [1; 1; 1; 1; 1; 1; 1; 1] in
  let ones := [true; true; true; true; true; true; true; true] in
  len bits mod 8 = 0
  /\ symbols bits 8 = [ones]
  /\ symbol_value ones = 2 ^ 8 - 1
  /\ uint8_add (2 ^ 8 - 1) 1 = 0
  /\ (ask_amp_value 8 (2 ^ 8 - 1) == 0)%Q
  /\ ~ (ask_amp_value 8 (2 ^ 8 - 1)
        == inject_Z (2 ^ 8 - 1 + 1) / inject_Z (2 ^ 8))%Q
  /\ exists w,
       get_ask_mod demo bits 8 = Ok w
       /\ length w = 256%nat
       /\ mod_samples_per_bit demo (cycles demo bits) = 32
       /\ writer demo 32 0 (symbols bits 8) 0 None = Some ones
       /\ forall k, (k < 256)%nat -> nth_error w k = Some 0%R.
Proof.
  intros bits ones.
  split; [reflexivity|]. split; [reflexivity|]. split; [reflexivity|].
  split; [reflexivity|]. split; [reflexivity|].
  split; [intros E; vm_compute in E; discriminate E|].
  destruct (get_ask_mod_spec demo demo_valid bits ltac:(discriminate) 8
              ltac:(reflexivity) ltac:(reflexivity))
    as (w & Hw & Hs).
  exists w. split; [exact Hw|].
  assert (Hz : w = zeros_like 0%R (sample_points_s demo)).
  { change (symbols bits 8) with [ones] in Hs.
    apply (synthesized_all_zero demo 0%R
             (mod_samples_per_bit demo (cycles demo bits)) [ones]
             (ask_symbol demo 8) w);
      [|exact Hs].
    intros data t [<- | []]. unfold ask_symbol, ask_sample.
    change (ask_amp_value 8 (symbol_value ones)) with (0 # 256)%Q.
    replace (Q2R (0 # 256)) with 0%R by (unfold Q2R; simpl; field).
    ring. }
  split; [rewrite Hz, zeros_like_length; exact demo_length|].
  split; [reflexivity|]. split; [reflexivity|].
  intros k Hk. rewrite Hz, zeros_like_nth_error.
  destruct (nth_error (sample_points_s demo) k) as [t|] eqn:Ht;
    [reflexivity|].
  apply nth_error_None in Ht. rewrite demo_length in Ht. lia.
Qed.

(** * Further properties of the code

    ** The constructor and the time base *)

Lemma Q2R_inject_Z (z : Z) : Q2R (inject_Z z) = IZR z.
Proof. unfold Q2R, inject_Z. simpl. field. Qed.

Lemma sample_freq_nonzero (cf : Q) :
  ~ (cf == 0)%Q -> ~ (cf * inject_Z 32 == 0)%Q.
Proof.
  intros Hcf E. apply Hcf.
  apply (Qmult_integral_l (inject_Z 32)); [discriminate|].
  now rewrite Qmult_comm.
Qed.

Lemma init_carrier_nonzero (cf dur : Q) (self : DigitalModulation) :
  init cf dur = Ok self -> ~ (cf == 0)%Q.
Proof.
  intros E H0. unfold init, truediv_one in E.
  assert (Hz : Qeq_bool (cf * inject_Z 32) 0 = true)
    by (apply Qeq_bool_iff; rewrite H0; reflexivity).
  rewrite Hz in E. discriminate.
Qed.

(** X1: the constructor raises ZeroDivisionError exactly when the carrier
    frequency it is given is 0, whatever the duration; otherwise it returns
    a valid instance whose public fields are the literals 1e6 and 8e-6,
    whose sampling frequency and period come from the argument, and whose
    start phase is 0. *)
Theorem init_outcome (cf dur : Q) :
  match init cf dur with
  | Raise e => e = ZeroDivisionError /\ (cf == 0)%Q
  | Ok self =>
      ~ (cf == 0)%Q
      /\ valid_config self
      /\ carrier_freq_hz self = (1000000 # 1)%Q
      /\ demo_duration_s self = (8 # 1000000)%Q
      /\ _oversampling self = 32
      /\ (_sample_freq_hz self == inject_Z 32 * cf)%Q
      /\ (_sample_period_s self == 1 / (inject_Z 32 * cf))%Q
      /\ start_phase_rad self = 0%R
  end.
Proof.
  destruct (init cf dur) as [self|e] eqn:E.
  - pose proof (init_carrier_nonzero _ _ _ E) as Hcf.
    destruct (init_fields _ _ _ E) as (Hf & Hd & Ho & Hs & Hp & _).
    split; [exact Hcf|]. split; [exact (init_valid _ _ _ E)|].
    repeat (split; [assumption|]).
    split; [rewrite Hs; apply Qmult_comm|]. split.
    + rewrite Hp, Hs. now rewrite (Qmult_comm cf).
    + unfold init, truediv_one in E.
      destruct (Qeq_bool (cf * inject_Z 32) 0); [discriminate|].
      simpl in E. injection E as <-. reflexivity.
  - unfold init, truediv_one in E.
    destruct (Qeq_bool (cf * inject_Z 32) 0) eqn:Hz; simpl in E;
      [|discriminate].
    split; [congruence|].
    apply Qeq_bool_iff in Hz.
    destruct (Qeq_dec cf 0) as [H0|H0]; [exact H0|].
    exfalso. exact (sample_freq_nonzero cf H0 Hz).
Qed.

Lemma init_step (cf dur : Q) (self : DigitalModulation) :
  init cf dur = Ok self -> (0 < cf)%Q ->
  sample_points_s self = arange dur (1 / (cf * inject_Z 32))%Q
  /\ (0 < 1 / (cf * inject_Z 32))%Q.
Proof.
  intros Hinit Hcf.
  destruct (init_fields _ _ _ Hinit) as (_ & _ & _ & Hs & Hp & Hts).
  assert (Hpos : (0 < cf * inject_Z 32)%Q)
    by (apply Qmult_lt_0_compat; [exact Hcf | reflexivity]).
  split; [now rewrite Hts, Hp, Hs|].
  unfold Qdiv. rewrite Qmult_1_l. now apply Qinv_lt_0_compat.
Qed.

Lemma Qdiv_nonpos (x y : Q) : (x <= 0)%Q -> (0 <= y)%Q -> (x / y <= 0)%Q.
Proof.
  intros Hx Hy. unfold Qdiv. rewrite <- (Qmult_0_l (/ y)).
  apply Qmult_le_compat_r; [exact Hx | now apply Qinv_le_0_compat].
Qed.

(** No instant is laid out up to a stop that is not positive. *)
Lemma arange_nonpositive (stop step : Q) :
  (stop <= 0)%Q -> (0 < step)%Q -> arange stop step = [].
Proof.
  intros Hstop Hstep. apply length_zero_iff_nil. rewrite arange_length.
  assert (Hq : (b64_div (b64_round stop) (b64_round step) <= 0)%Q).
  { apply b64_round_nonpos. apply Qdiv_nonpos.
    - now apply b64_round_nonpos.
    - apply b64_round_nonneg. now apply Qlt_le_weak. }
  apply Qceiling_resp_le in Hq. change (Qceiling 0) with 0 in Hq. lia.
Qed.

Lemma length_zero_waveform {X : Type} (self : DigitalModulation) (w : list X) :
  sample_points_s self = [] -> length w = length (sample_points_s self) ->
  w = [].
Proof. intros -> H. now apply length_zero_iff_nil. Qed.

(** X3: with a positive carrier frequency, a duration that is not positive
    is no error: the instance has no sample instants, its carrier is the
    empty waveform, and so is the result of every modulator call that
    passes the checks on the bits, for a symbol width below 1024. *)
Theorem nonpositive_duration_empty
  (cf dur : Q) (self : DigitalModulation)
  (data_vec : list Z) (B : Z) (frequency_span : Q) :
  init cf dur = Ok self -> (0 < cf)%Q -> (dur <= 0)%Q ->
  sample_points_s self = []
  /\ get_carrier self = []
  /\ (data_vec <> [] -> 0 < B < 1024 -> len data_vec mod B = 0 ->
      get_ask_mod self data_vec B = Ok []
      /\ get_psk_mod self data_vec B = Ok []
      /\ get_fsk_mod self data_vec frequency_span B = Ok []
      /\ (Z.even B = true -> get_qam_mod self data_vec B = Ok [])).
Proof.
  intros Hinit Hcf Hdur.
  destruct (init_step cf dur self Hinit Hcf) as (Hts & Hstep).
  pose proof (init_valid _ _ _ Hinit) as Hvalid.
  assert (Hnil : sample_points_s self = []).
  { rewrite Hts. now apply arange_nonpositive. }
  split; [exact Hnil|]. split.
  - unfold get_carrier. now rewrite Hnil.
  - intros Hne HB1024 Hmod. assert (HB : 0 < B) by lia.
    destruct (get_ask_mod_spec self Hvalid data_vec Hne B HB Hmod)
      as (w1 & Hw1 & Hl1 & _).
    destruct (get_psk_mod_spec self Hvalid data_vec Hne B HB Hmod)
      as (w2 & Hw2 & Hl2 & _).
    destruct (get_fsk_mod_spec self Hvalid data_vec Hne B frequency_span
                HB Hmod) as (w3 & Hw3 & Hl3 & _).
    rewrite (length_zero_waveform self w1 Hnil Hl1) in Hw1.
    rewrite (length_zero_waveform self w2 Hnil Hl2) in Hw2.
    rewrite (length_zero_waveform self w3 Hnil Hl3) in Hw3.
    repeat (split; [assumption|]).
    intros He.
    assert (Hhalf : 0 < B / 2) by (pose proof (even_width B He); lia).
    assert (Hmod' : len data_vec mod (2 * (B / 2)) = 0)
      by now rewrite (even_width B He).
    destruct (get_qam_mod_spec self Hvalid data_vec Hne B Hhalf Hmod')
      as (w4 & Hw4 & Hl4 & _).
    now rewrite (length_zero_waveform self w4 Hnil Hl4) in Hw4.
Qed.

(** [DigitalModulation(1e6, -1e-6)]: no instants, an empty carrier. *)
Lemma nonpositive_duration_empty_witness :
  exists self,
    init (1000000 # 1)%Q (- (1 # 1000000))%Q = Ok self
    /\ (0 < 1000000 # 1)%Q /\ (- (1 # 1000000) <= 0)%Q
    /\ sample_points_s self = [] /\ get_carrier self = [].
Proof.
  assert (Hcf : (0 < 1000000 # 1)%Q) by reflexivity.
  assert (Hdur : (- (1 # 1000000) <= 0)%Q) by (unfold Qle; simpl; lia).
  eexists. split; [reflexivity|]. split; [exact Hcf|]. split; [exact Hdur|].
  destruct (@nonpositive_duration_empty (1000000 # 1)%Q (- (1 # 1000000))%Q
              _ [0; 1] 1 (200000 # 1)%Q eq_refl Hcf Hdur) as (H1 & H2 & _).
  split; [exact H1 | exact H2].
Defined.

(** ** The carrier *)

Lemma instant_real (cf dur : Q) (self : DigitalModulation) (k : nat) (t : Q) :
  init cf dur = Ok self ->
  nth_error (sample_points_s self) k = Some t ->
  Q2R t = (INR k / (Q2R cf * 32))%R /\ Q2R cf <> 0%R.
Proof.
  intros Hinit Hk.
  pose proof (init_carrier_nonzero _ _ _ Hinit) as Hcf.
  destruct (init_fields _ _ _ Hinit) as (_ & _ & _ & Hs & Hp & Hts).
  rewrite Hts, Hp, Hs in Hk. unfold arange in Hk.
  rewrite nth_error_map in Hk.
  destruct (nth_error (seq 0 _) k) as [j|] eqn:Hj; [|discriminate].
  simpl in Hk. injection Hk as <-.
  rewrite nth_error_seq in Hj.
  destruct (Nat.ltb k _); [|discriminate]. injection Hj as <-.
  assert (Hr : Q2R cf <> 0%R).
  { intros H0. apply Hcf. apply eqR_Qeq. rewrite H0.
    now rewrite RMicromega.Q2R_0. }
  split; [|exact Hr].
  unfold Qdiv. rewrite Q2R_mult, Qmult_1_l, Q2R_inv, Q2R_mult, !Q2R_inject_Z
    by (apply sample_freq_nonzero; exact Hcf).
  simpl. rewrite <- INR_IZR_INZ. field. exact Hr.
Qed.

Lemma Q2R_megahertz : Q2R (1000000 # 1) = 1000000%R.
Proof. unfold Q2R. simpl. field. Qed.

Lemma carrier_sample_value
  (cf dur : Q) (self : DigitalModulation) (k : nat) (x : R) :
  init cf dur = Ok self -> nth_error (get_carrier self) k = Some x ->
  x = sin (2 * PI * (1000000 / Q2R cf) * (INR k / 32))%R.
Proof.
  intros Hinit Hx. unfold get_carrier in Hx. rewrite nth_error_map in Hx.
  destruct (nth_error (sample_points_s self) k) as [t|] eqn:Ht;
    [|discriminate].
  simpl in Hx. injection Hx as <-.
  destruct (instant_real cf dur self k t Hinit Ht) as (-> & Hcf).
  destruct (init_fields _ _ _ Hinit) as (-> & _).
  rewrite Q2R_megahertz. f_equal. field. exact Hcf.
Qed.

(** X4: on an instance made by the constructor, carrier sample [k] is
    [sin(2 pi (1e6 / cf) k / 32)]: the carrier runs at the stored 1 MHz on
    a grid laid out for the frequency [cf] given to the constructor.  It
    starts at 0, stays within [[-1, 1]], and when [cf] is 1e6 it repeats
    every 32 samples, one carrier period. *)
Theorem carrier_samples
  (cf dur : Q) (self : DigitalModulation) (k : nat) (x : R) :
  init cf dur = Ok self -> nth_error (get_carrier self) k = Some x ->
  x = sin (2 * PI * (1000000 / Q2R cf) * (INR k / 32))%R
  /\ (Rabs x <= 1)%R
  /\ (k = 0%nat -> x = 0%R)
  /\ ((cf == 1000000 # 1)%Q ->
      forall y, nth_error (get_carrier self) (k + 32) = Some y -> y = x).
Proof.
  intros Hinit Hx.
  pose proof (carrier_sample_value cf dur self k x Hinit Hx) as Ex.
  split; [exact Ex|]. split; [|split].
  - rewrite Ex. apply Rabs_le. apply SIN_bound.
  - intros ->. rewrite Ex. simpl INR.
    replace (2 * PI * (1000000 / Q2R cf) * (0 / 32))%R with 0%R
      by (unfold Rdiv; ring).
    apply sin_0.
  - intros Hcf y Hy.
    rewrite (carrier_sample_value cf dur self (k + 32) y Hinit Hy), Ex.
    rewrite (Qeq_eqR _ _ Hcf), Q2R_megahertz, plus_INR.
    replace (INR 32) with 32%R by (rewrite INR_IZR_INZ; reflexivity).
    replace (2 * PI * (1000000 / 1000000) * ((INR k + 32) / 32))%R
      with (2 * PI * (1000000 / 1000000) * (INR k / 32) + 2 * INR 1 * PI)%R
      by (simpl INR; field).
    apply sin_period.
Qed.

Lemma carrier_samples_witness :
  exists x, nth_error (get_carrier demo) 0 = Some x /\ x = 0%R.
Proof.
  pose (x := sin (2 * PI * Q2R (carrier_freq_hz demo)
                  * Q2R (inject_Z 0 * (1 / ((1000000 # 1) * inject_Z 32))))).
  assert (Hx : nth_error (get_carrier demo) 0 = Some x) by reflexivity.
  exists x. split; [exact Hx|].
  exact (proj1 (proj2 (proj2
    (@carrier_samples (1000000 # 1)%Q (8 # 1000000)%Q demo 0 x
       init_demo Hx))) eq_refl).
Defined.

(** ** Outcomes of the modulators *)

Lemma slice_index_range (n i : Z) : 0 <= n -> 0 <= slice_index n i <= n.
Proof. intros Hn. unfold slice_index. destruct (Z.ltb_spec i 0); lia. Qed.

(** The slice assignment of a segment never fails, whatever the bounds:
    both slices are cut from arrays of one length. *)
Lemma write_segment_total {X : Type} (self : DigitalModulation)
  (f : Q -> X) (start stop : Z) (w : list X) :
  length w = length (sample_points_s self) ->
  exists w1, write_segment self f start stop w = Ok w1
             /\ length w1 = length w.
Proof.
  intros Hlen. unfold write_segment.
  set (ts := sample_points_s self) in *.
  assert (Hi : slice_start w start = slice_start ts start)
    by (unfold slice_start, len; now rewrite Hlen).
  assert (Hc : slice_count w start stop = slice_count ts start stop)
    by (unfold slice_count, len; now rewrite Hlen).
  pose proof (slice_index_range (len ts) start (len_nonneg ts)) as Ha.
  pose proof (slice_index_range (len ts) stop (len_nonneg ts)) as Hb.
  assert (Hbound : (slice_start ts start + slice_count ts start stop
                    <= length ts)%nat)
    by (unfold slice_start, slice_count, len in *; lia).
  assert (Hvals : length (map f (getslice ts start stop))
                  = slice_count w start stop).
  { unfold getslice. rewrite length_map, length_firstn, length_skipn. lia. }
  rewrite (setslice_exact _ _ _ _ Hvals).
  eexists. split; [reflexivity|].
  rewrite !length_app, length_skipn, firstn_length_le, Hvals; lia.
Qed.

Lemma for_enumerate_total {A X : Type} (n : nat)
  (body : Z -> A -> list X -> result (list X)) (syms : list A) :
  (forall i data v, In data syms -> length v = n ->
     exists v', body i data v = Ok v' /\ length v' = n) ->
  forall idx w, length w = n ->
    exists w', for_enumerate body idx syms w = Ok w' /\ length w' = n.
Proof.
  induction syms as [|data syms IH]; intros Hbody idx w Hlen.
  - exists w. split; [reflexivity | exact Hlen].
  - destruct (Hbody idx data w (or_introl eq_refl) Hlen) as (v & Hv & Hlv).
    destruct (IH (fun i d u Hin => Hbody i d u (or_intror Hin)) (idx + 1) v Hlv)
      as (w' & Hw' & Hlw').
    exists w'. split; [|exact Hlw'].
    cbn [for_enumerate]. now rewrite Hv.
Qed.

Lemma reshape_outcome {A : Type} (a : list A) (d : Z) :
  match reshape a d with
  | Ok rows => 0 < d /\ len a mod d = 0 /\ rows = chunks (Z.to_nat d) a
  | Raise e => e = ValueError /\ (d <= 0 \/ len a mod d <> 0)
  end.
Proof.
  unfold reshape. destruct (Z.leb_spec d 0) as [Hd|Hd]; [auto|].
  destruct (Z.eqb_spec (len a mod d) 0) as [Hm|Hm]; simpl; auto.
Qed.

(** A reshape followed by a loop whose body keeps the length. *)
Lemma loop_outcome {A X : Type} (self : DigitalModulation)
  (data_vec : list Z) (d : Z) (rows : result (list A))
  (body : Z -> A -> list X -> result (list X)) (w0 : list X) :
  data_vec <> [] ->
  match rows with
  | Ok r =>
      0 < d /\ len data_vec mod d = 0
      /\ forall i data v, In data r ->
           length v = length (sample_points_s self) ->
           exists v', body i data v = Ok v'
                      /\ length v' = length (sample_points_s self)
  | Raise e => e = ValueError /\ (d <= 0 \/ len data_vec mod d <> 0)
  end ->
  length w0 = length (sample_points_s self) ->
  outcome_spec self data_vec d (r <- rows ;; for_enumerate body 0 r w0).
Proof.
  intros Hne Hrows Hlen. destruct rows as [r|e].
  - destruct Hrows as (Hd & Hmod & Hbody). simpl bind.
    destruct (for_enumerate_total _ body r Hbody 0 w0 Hlen) as (w & -> & Hlw).
    simpl. auto.
  - destruct Hrows as (-> & Hd). simpl. auto.
Qed.

Lemma reshape_bits_outcome (self : DigitalModulation) {X : Type}
  (data_vec : list Z) (B : Z)
  (body : Z -> list bool -> list X -> result (list X)) :
  (forall i data v, data <> [] ->
     length v = length (sample_points_s self) ->
     exists v', body i data v = Ok v'
                /\ length v' = length (sample_points_s self)) ->
  match reshape (astype_bool data_vec) B with
  | Ok r =>
      0 < B /\ len data_vec mod B = 0
      /\ forall i data v, In data r ->
           length v = length (sample_points_s self) ->
           exists v', body i data v = Ok v'
                      /\ length v' = length (sample_points_s self)
  | Raise e => e = ValueError /\ (B <= 0 \/ len data_vec mod B <> 0)
  end.
Proof.
  intros Hbody.
  pose proof (reshape_outcome (astype_bool data_vec) B) as Hr.
  assert (Hlen : len (astype_bool data_vec) = len data_vec)
    by (unfold len; now rewrite astype_bool_length).
  rewrite Hlen in Hr.
  destruct (reshape (astype_bool data_vec) B) as [rows|e]; [|exact Hr].
  destruct Hr as (HB & Hmod & ->). split; [exact HB|]. split; [exact Hmod|].
  intros i data v Hin. apply Hbody.
  exact (row_nonempty data_vec B data HB Hmod Hin).
Qed.

(** The three real-valued modulators, after unfolding. *)
Ltac row_modulator_outcome self data_vec :=
  let Hdv := fresh "Hdv" in
  let Hne := fresh "Hne" in
  destruct data_vec as [|? ?] eqn:Hdv; [reflexivity|];
  rewrite <- Hdv;
  assert (Hne : data_vec <> []) by (rewrite Hdv; discriminate);
  rewrite (bind_ok _ _ _ (periods_per_bit_ok self data_vec Hne));
  cbv beta zeta;
  apply loop_outcome;
  [ exact Hne
  | apply reshape_bits_outcome;
    let Hd := fresh "Hd" in
    let Hv := fresh "Hv" in
    intros ? ? ? Hd Hv;
    rewrite (getitem0_packbits _ Hd); simpl bind;
    rewrite <- Hv; now apply write_segment_total
  | apply zeros_like_length ].

(** X5: the outcome of every modulator call with a symbol width below
    1024 and a float span, on any instance: it raises ZeroDivisionError
    exactly on the empty bit sequence, ValueError exactly on a non-empty
    one whose row width ([B], and [2 * (B // 2)] for QAM) is not positive
    or does not divide the length, and otherwise returns a waveform as
    long as the time base.  No such call raises IndexError, and no slice
    assignment fails. *)
Theorem modulator_outcomes
  (self : DigitalModulation) (data_vec : list Z) (B : Z) (frequency_span : Q) :
  B < 1024 ->
  outcome_spec self data_vec B (get_ask_mod self data_vec B)
  /\ outcome_spec self data_vec B (get_psk_mod self data_vec B)
  /\ outcome_spec self data_vec B
       (get_fsk_mod self data_vec frequency_span B)
  /\ outcome_spec self data_vec (2 * (B / 2)) (get_qam_mod self data_vec B).
Proof.
  intros _. split; [|split; [|split]].
  - unfold get_ask_mod. row_modulator_outcome self data_vec.
  - unfold get_psk_mod. row_modulator_outcome self data_vec.
  - unfold get_fsk_mod. row_modulator_outcome self data_vec.
  - unfold get_qam_mod.
    destruct data_vec as [|b bits] eqn:Hdv; [reflexivity|].
    rewrite <- Hdv.
    assert (Hne : data_vec <> []) by (rewrite Hdv; discriminate).
    rewrite (bind_ok _ _ _ (periods_per_bit_ok self data_vec Hne)).
    cbv beta zeta. unfold reshape3.
    pose proof (reshape_outcome (astype_bool data_vec) (2 * (B / 2))) as Hr.
    assert (Hlen : len (astype_bool data_vec) = len data_vec)
      by (unfold len; now rewrite astype_bool_length).
    rewrite Hlen in Hr.
    destruct (reshape (astype_bool data_vec) (2 * (B / 2))) as [rows|e].
    + destruct Hr as (Hd & Hmod & ->). cbn [bind].
      assert (Hhalf : 0 < B / 2) by lia.
      destruct (for_enumerate_total (length (sample_points_s self))
                  (fun idx data v =>
                     packed <- getitem0 (packbits_little (concat data)) ;;
                     write_segment self
                       (qam_sample self
                          (get_qam_modulation_mapping (packed + 1) (2 ^ B)))
                       (idx * _oversampling self)
                       (idx * _oversampling self
                        + mod_samples_per_bit self (cycles self data_vec)) v)
                  (map (chunks (Z.to_nat (B / 2)))
                       (chunks (Z.to_nat (2 * (B / 2)))
                               (astype_bool data_vec))))
        with (idx := 0)
             (w := zeros_like (0%R, 0%R) (sample_points_s self))
        as (w & Hw & Hlw).
      * intros i data v Hin Hv.
        rewrite (getitem0_packbits _
                   (proj2 (qam_row_flat data_vec B Hhalf Hmod data Hin))).
        simpl bind. rewrite <- Hv. now apply write_segment_total.
      * apply zeros_like_length.
      * unfold complex in *. rewrite Hw. simpl. auto.
    + destruct Hr as (-> & Hr). simpl. auto.
Qed.

(** [ask([0,1,1], B=2)] on the demo engine raises ValueError, and the
    outcome says why: three bits are not a multiple of two. *)
Lemma modulator_outcomes_witness :
  2 < 1024
  /\ get_ask_mod demo [0; 1; 1] 2 = Raise ValueError
  /\ [0; 1; 1] <> @nil Z /\ (2 <= 0 \/ len [0; 1; 1] mod 2 <> 0).
Proof.
  assert (HB : 2 < 1024) by lia.
  split; [exact HB|]. split; [reflexivity|].
  exact (proj1 (@modulator_outcomes demo [0; 1; 1] 2 (200000 # 1)%Q HB)).
Defined.

(** X19: FSK with a span that is a Python [int], in a call that passes
    the checks on the bits, with a symbol width below 1024: a span that is
    no byte (negative, or above 255) makes the call raise OverflowError at
    the first symbol; with a span from 0 to 255 the call returns a
    waveform as long as the time base, and the symbol value [v] has the
    frequency [frequency_min + ((v * span) mod 256) / (2^B - 1)], the
    product wrapped in [uint8]. *)
Theorem fsk_int_span
  (self : DigitalModulation) (data_vec : list Z) (span B : Z) :
  valid_config self -> data_vec <> [] -> 0 < B < 1024 ->
  len data_vec mod B = 0 ->
  (span < 0 \/ 255 < span ->
   get_fsk_mod self data_vec (PyInt span) B = Raise OverflowError)
  /\ (0 <= span <= 255 ->
      (exists w, get_fsk_mod self data_vec (PyInt span) B = Ok w
                 /\ length w = length (sample_points_s self))
      /\ forall v,
           fsk_freq_value_hz self (PyInt span) B v
           = Ok (b64_add
                   (b64_sub (carrier_freq_hz self)
                            (b64_round (inject_Z span / 2)))
                   (b64_div (inject_Z ((v * span) mod 256))
                            (b64_round (inject_Z (2 ^ B - 1)))))).
Proof.
  intros Hvalid Hne HB1024 Hmod. assert (HB : 0 < B) by lia.
  destruct (symbols_rows data_vec B HB Hmod) as (Hrows & Hlen & Hall).
  unfold get_fsk_mod.
  rewrite (bind_ok _ _ _ (periods_per_bit_ok self data_vec Hne)).
  rewrite (bind_ok _ _ _ Hrows).
  split.
  - intros Hspan.
    assert (Hmul : forall v, uint8_mul v span = Raise OverflowError).
    { intros v. unfold uint8_mul.
      destruct (Z.leb_spec 0 span), (Z.leb_spec span 255);
        try reflexivity; lia. }
    destruct (symbols data_vec B) as [|row rows] eqn:Hsym.
    + exfalso. simpl in Hlen.
      assert (Hpos : 0 < len data_vec / B).
      { apply Z.div_str_pos. split; [lia|].
        pose proof (len_nonneg data_vec).
        assert (len data_vec <> 0) by (rewrite len_zero_iff; exact Hne).
        assert (Hd : (B | len data_vec))
          by (apply Z.mod_divide; [lia | exact Hmod]).
        apply Z.divide_pos_le in Hd; lia. }
      lia.
    + assert (Hrow : row <> []).
      { apply (row_nonempty data_vec B row HB Hmod).
        rewrite Hsym. now left. }
      cbn [for_enumerate]. rewrite (getitem0_packbits _ Hrow).
      cbn [bind]. unfold fsk_freq_value_hz, byte_times_span.
      now rewrite Hmul.
  - intros Hspan.
    assert (Hmul : forall v, uint8_mul v span = Ok ((v * span) mod 256)).
    { intros v. unfold uint8_mul.
      destruct (Z.leb_spec 0 span), (Z.leb_spec span 255);
        try reflexivity; lia. }
    split.
    + apply for_enumerate_total; [|apply zeros_like_length].
      intros i data v Hin Hv.
      rewrite (getitem0_packbits _
                 (row_nonempty data_vec B data HB Hmod Hin)).
      cbn [bind]. unfold fsk_freq_value_hz, byte_times_span.
      rewrite Hmul. cbn [bind]. rewrite <- Hv.
      now apply write_segment_total.
    + intros v. unfold fsk_freq_value_hz, byte_times_span, half_span.
      now rewrite Hmul.
Qed.

(** [fsk([1], 200000, B=1)] on the demo engine. *)
Lemma fsk_int_span_witness :
  valid_config demo
  /\ get_fsk_mod demo [1] (PyInt 200000) 1 = Raise OverflowError.
Proof.
  assert (Hv : valid_config demo) by (repeat split; simpl; lia).
  assert (Hne : [1] <> @nil Z) by discriminate.
  split; [exact Hv|].
  exact (proj1 (@fsk_int_span demo [1] 200000 1 Hv Hne ltac:(lia) eq_refl)
           ltac:(lia)).
Defined.

(** ** Which symbol a sample shows *)

Lemma writer_none_zero_length {Sym : Type} (self : DigitalModulation)
  (syms : list Sym) (idx : Z) (k : nat) :
  writer self 0 idx syms k None = None.
Proof.
  apply writer_None. intros j _.
  destruct (covers self 0 (idx + Z.of_nat j) k) eqn:E; [|reflexivity].
  apply covers_iff in E. lia.
Qed.

Lemma synthesized_zero {X Sym : Type} (self : DigitalModulation) (zero : X)
  (syms : list Sym) (sample : Sym -> Q -> X) (w : list X) :
  synthesized self zero 0 syms sample w ->
  w = zeros_like zero (sample_points_s self).
Proof.
  intros (Hlen & Hnth). apply nth_error_ext. intros k.
  rewrite zeros_like_nth_error.
  destruct (nth_error (sample_points_s self) k) as [t|] eqn:Ht.
  - rewrite (Hnth k t Ht), writer_none_zero_length. reflexivity.
  - simpl. apply nth_error_None. rewrite Hlen. now apply nth_error_None.
Qed.

Lemma cycles_zero (self : DigitalModulation) (data_vec : list Z) :
  valid_config self ->
  (carrier_freq_hz self * demo_duration_s self < inject_Z (len data_vec))%Q ->
  cycles self data_vec = 0.
Proof.
  intros Hvalid Hlt.
  assert (Hn : (0 < inject_Z (len data_vec))%Q).
  { apply Qle_lt_trans with (2 := Hlt).
    destruct Hvalid as (Hf & Hd & _).
    apply Qlt_le_weak. now apply Qmult_lt_0_compat. }
  assert (Hne : data_vec <> []).
  { intros ->. unfold len in Hn. simpl in Hn. exact (Qlt_irrefl 0 Hn). }
  pose proof (cycles_nonneg self Hvalid data_vec Hne) as H0.
  assert (H1 : cycles self data_vec < 1); [|lia].
  unfold cycles. rewrite Zlt_Qlt.
  apply Qle_lt_trans with (1 := Qfloor_le _).
  apply Qlt_shift_div_r; [exact Hn|]. now rewrite Qmult_1_l.
Qed.

(** X6: when the bit sequence has more bits than the demo has carrier
    periods ([len(bits) > carrier_freq_hz * demo_duration_s], more than 8
    bits on the default instance), the cycle count is 0 and every
    modulator call that passes the checks, with a symbol width below
    1024, returns the all-zero waveform: no symbol is written at all. *)
Theorem too_many_bits_silence
  (self : DigitalModulation) (data_vec : list Z) (B : Z) (frequency_span : Q) :
  valid_config self -> B < 1024 ->
  (carrier_freq_hz self * demo_duration_s self < inject_Z (len data_vec))%Q ->
  periods_per_bit self data_vec = Ok 0
  /\ (0 < B -> len data_vec mod B = 0 ->
      get_ask_mod self data_vec B
      = Ok (zeros_like 0%R (sample_points_s self))
      /\ get_psk_mod self data_vec B
         = Ok (zeros_like 0%R (sample_points_s self))
      /\ get_fsk_mod self data_vec frequency_span B
         = Ok (zeros_like 0%R (sample_points_s self)))
  /\ (0 < B / 2 -> len data_vec mod (2 * (B / 2)) = 0 ->
      get_qam_mod self data_vec B
      = Ok (zeros_like (0%R, 0%R) (sample_points_s self))).
Proof.
  intros Hvalid _ Hlt.
  pose proof (cycles_zero self data_vec Hvalid Hlt) as Hc.
  assert (Hne : data_vec <> []).
  { intros ->. destruct Hvalid as (Hf & Hd & _).
    pose proof (Qmult_lt_0_compat _ _ Hf Hd) as Hp.
    unfold len in Hlt. simpl in Hlt.
    exact (Qlt_irrefl 0 (Qlt_trans _ _ _ Hp Hlt)). }
  assert (Hm : mod_samples_per_bit self (cycles self data_vec) = 0)
    by (rewrite Hc; reflexivity).
  split; [rewrite <- Hc; apply periods_per_bit_ok; exact Hne|].
  split.
  - intros HB Hmod.
    destruct (get_ask_mod_spec self Hvalid data_vec Hne B HB Hmod)
      as (w1 & -> & Hs1).
    destruct (get_psk_mod_spec self Hvalid data_vec Hne B HB Hmod)
      as (w2 & -> & Hs2).
    destruct (get_fsk_mod_spec self Hvalid data_vec Hne B frequency_span
                HB Hmod) as (w3 & -> & Hs3).
    rewrite Hm in Hs1, Hs2, Hs3.
    now rewrite (synthesized_zero _ _ _ _ _ Hs1),
      (synthesized_zero _ _ _ _ _ Hs2), (synthesized_zero _ _ _ _ _ Hs3).
  - intros Hhalf Hmod.
    destruct (get_qam_mod_spec self Hvalid data_vec Hne B Hhalf Hmod)
      as (w & -> & Hs).
    rewrite Hm in Hs. now rewrite (synthesized_zero _ _ _ _ _ Hs).
Qed.

Lemma too_many_bits_silence_witness :
  valid_config demo
  /\ periods_per_bit demo [0; 1; 1; 0; 1; 0; 0; 1; 1] = Ok 0.
Proof.
  assert (Hv : valid_config demo) by (repeat split; simpl; lia).
  assert (Hlt : (carrier_freq_hz demo * demo_duration_s demo
                 < inject_Z (len [0; 1; 1; 0; 1; 0; 0; 1; 1]))%Q)
    by reflexivity.
  split; [exact Hv|].
  exact (proj1 (@too_many_bits_silence demo [0; 1; 1; 0; 1; 0; 0; 1; 1] 1
                  (200000 # 1)%Q Hv ltac:(lia) Hlt)).
Defined.

Lemma owner_cases (self : DigitalModulation) (m : Z) (n k : nat) :
  1 <= _oversampling self -> 0 <= m ->
  match owner self m n k with
  | Some j =>
      (j < n)%nat /\ covers self m (Z.of_nat j) k = true
      /\ forall j', (j < j' < n)%nat -> covers self m (Z.of_nat j') k = false
  | None => forall j, (j < n)%nat -> covers self m (Z.of_nat j) k = false
  end.
Proof.
  intros Hos Hm. unfold owner.
  set (os := _oversampling self) in *.
  set (q := Z.of_nat k / os).
  assert (Hq : q * os <= Z.of_nat k < (q + 1) * os).
  { unfold q. pose proof (Z.div_mod (Z.of_nat k) os ltac:(lia)).
    pose proof (Z.mod_pos_bound (Z.of_nat k) os ltac:(lia)). nia. }
  assert (Hq0 : 0 <= q) by (apply Z.div_pos; lia).
  destruct (Z.ltb_spec 0 (Z.of_nat n)) as [Hn|Hn]; cbn [andb].
  - set (j := Z.min q (Z.of_nat n - 1)).
    assert (Hj : 0 <= j < Z.of_nat n /\ j <= q) by (unfold j; lia).
    destruct (Z.ltb_spec (Z.of_nat k) (j * os + m)) as [Hk|Hk].
    + split; [lia|]. rewrite Z2Nat.id by lia. split.
      * apply covers_iff. fold os. nia.
      * intros j' Hj'.
        destruct (covers self m (Z.of_nat j') k) eqn:E; [|reflexivity].
        apply covers_iff in E. fold os in E.
        assert (Z.of_nat j' <= q) by nia.
        unfold j in *. lia.
    + intros i Hi.
      destruct (covers self m (Z.of_nat i) k) eqn:E; [|reflexivity].
      apply covers_iff in E. fold os in E.
      assert (Z.of_nat i <= q) by nia.
      assert (Z.of_nat i <= j) by (unfold j; lia). nia.
  - intros j Hj. lia.
Qed.

(** The last writer of a sample, in closed form. *)
Lemma writer_owner {Sym : Type} (self : DigitalModulation) (m : Z)
  (syms : list Sym) (k : nat) :
  1 <= _oversampling self -> 0 <= m ->
  writer self m 0 syms k None
  = match owner self m (length syms) k with
    | Some j => nth_error syms j
    | None => None
    end.
Proof.
  intros Hos Hm.
  pose proof (owner_cases self m (length syms) k Hos Hm) as Ho.
  destruct (owner self m (length syms) k) as [j|].
  - destruct Ho as (Hj & Hc & Hlast).
    destruct (writer self m 0 syms k None) as [data|] eqn:W.
    + apply writer_Some in W. destruct W as (i & Hi & Hci & Hli).
      simpl in Hci, Hli.
      assert (Hil : (i < length syms)%nat)
        by (apply nth_error_Some; congruence).
      destruct (Nat.lt_trichotomy i j) as [Hlt | [-> | Hgt]].
      * rewrite (Hli j (conj Hlt Hj)) in Hc. discriminate.
      * now rewrite Hi.
      * rewrite (Hlast i (conj Hgt Hil)) in Hci. discriminate.
    + rewrite writer_None in W. simpl in W.
      rewrite (W j Hj) in Hc. discriminate.
  - apply writer_None. intros j Hj. simpl. now apply Ho.
Qed.

Lemma synthesized_owned {X Sym : Type} (self : DigitalModulation) (zero : X)
  (m : Z) (syms : list Sym) (sample : Sym -> Q -> X) (w : list X) :
  1 <= _oversampling self -> 0 <= m ->
  synthesized self zero m syms sample w -> owned self zero m syms sample w.
Proof.
  intros Hos Hm (Hlen & Hnth). split; [exact Hlen|]. intros k t Ht.
  rewrite (Hnth k t Ht), (writer_owner self m syms k Hos Hm).
  destruct (owner self m (length syms) k); reflexivity.
Qed.

(** X7: in the waveform of a valid call, sample [k] shows the symbol
    [j = min(k // oversampling, nsyms - 1)], the last one that starts at or
    before [k], when [k < j * oversampling + count * oversampling], and is
    zero otherwise.  So each symbol but the last is visible on at most its
    first [oversampling] samples, whatever the cycle count, and the last
    one on its whole segment. *)
Theorem sample_owner
  (self : DigitalModulation) (data_vec : list Z) (B : Z) (frequency_span : Q) :
  valid_config self -> data_vec <> [] ->
  let m := mod_samples_per_bit self (cycles self data_vec) in
  (0 < B -> len data_vec mod B = 0 ->
     (exists w, get_ask_mod self data_vec B = Ok w
                /\ owned self 0%R m (symbols data_vec B)
                     (ask_symbol self B) w)
     /\ (exists w, get_psk_mod self data_vec B = Ok w
                   /\ owned self 0%R m (symbols data_vec B)
                        (psk_symbol self B) w)
     /\ (exists w, get_fsk_mod self data_vec frequency_span B = Ok w
                   /\ owned self 0%R m (symbols data_vec B)
                        (fsk_symbol self frequency_span B) w))
  /\ (0 < B / 2 -> len data_vec mod (2 * (B / 2)) = 0 ->
      exists w, get_qam_mod self data_vec B = Ok w
                /\ owned self (0%R, 0%R) m (qam_symbols data_vec B)
                     (qam_symbol self B) w).
Proof.
  intros Hvalid Hne m.
  assert (Hos : 1 <= _oversampling self)
    by (destruct Hvalid as (_ & _ & H); exact H).
  pose proof (mod_samples_nonneg self Hvalid data_vec Hne) as Hm.
  split.
  - intros HB Hmod.
    destruct (get_ask_mod_spec self Hvalid data_vec Hne B HB Hmod)
      as (w1 & Hw1 & Hs1).
    destruct (get_psk_mod_spec self Hvalid data_vec Hne B HB Hmod)
      as (w2 & Hw2 & Hs2).
    destruct (get_fsk_mod_spec self Hvalid data_vec Hne B frequency_span
                HB Hmod) as (w3 & Hw3 & Hs3).
    split; [|split]; eexists; (split; [eassumption|]);
      apply synthesized_owned; assumption.
  - intros Hhalf Hmod.
    destruct (get_qam_mod_spec self Hvalid data_vec Hne B Hhalf Hmod)
      as (w & Hw & Hs).
    exists w. split; [exact Hw|]. apply synthesized_owned; assumption.
Qed.

Lemma sample_owner_witness :
  valid_config demo
  /\ exists w, get_ask_mod demo [0; 1; 1; 0] 1 = Ok w
               /\ owned demo 0%R 64 (symbols [0; 1; 1; 0] 1)
                    (ask_symbol demo 1) w.
Proof.
  assert (Hv : valid_config demo) by (repeat split; simpl; lia).
  assert (Hne : [0; 1; 1; 0] <> @nil Z) by discriminate.
  split; [exact Hv|].
  exact (proj1 (proj1 (@sample_owner demo [0; 1; 1; 0] 1 (200000 # 1)%Q
                         Hv Hne) ltac:(lia) eq_refl)).
Defined.

(** ** Constellation lookup as the modulator uses it *)

Lemma qam_sample_fallback (self : DigitalModulation) (t : Q) :
  qam_sample self (0, 0) t = (0%R, 0%R).
Proof. unfold qam_sample. f_equal; ring. Qed.

(** X8: for every [bits_per_symbol_log2] from 5 on, 6 and 8 of the
    documented range included, there is no constellation table: every
    symbol gets the fallback [(0, 0)] and a QAM call that passes the checks
    returns the all-zero waveform, whatever the bits. *)
Theorem qam_large_sizes_silent
  (self : DigitalModulation) (data_vec : list Z) (B : Z) :
  valid_config self -> data_vec <> [] -> 5 <= B ->
  len data_vec mod (2 * (B / 2)) = 0 ->
  (forall value, get_qam_modulation_mapping value (2 ^ B) = (0, 0))
  /\ get_qam_mod self data_vec B
     = Ok (zeros_like (0%R, 0%R) (sample_points_s self)).
Proof.
  intros Hvalid Hne HB Hmod.
  assert (Hmap : forall value,
             get_qam_modulation_mapping value (2 ^ B) = (0, 0)).
  { intros value. unfold get_qam_modulation_mapping.
    rewrite qam_table_size; [reflexivity|].
    assert (H32 : 2 ^ 5 <= 2 ^ B) by (apply Z.pow_le_mono_r; lia).
    change (2 ^ 5) with 32 in H32. simpl. lia. }
  split; [exact Hmap|].
  assert (Hhalf : 0 < B / 2).
  { apply Z.div_str_pos. lia. }
  destruct (get_qam_mod_spec self Hvalid data_vec Hne B Hhalf Hmod)
    as (w & -> & Hs).
  f_equal. unfold complex in *.
  eapply synthesized_all_zero; [|exact Hs].
  intros data t _. unfold qam_symbol. rewrite Hmap.
  apply qam_sample_fallback.
Qed.

Lemma qam_large_sizes_silent_witness :
  valid_config demo
  /\ get_qam_mod demo [1; 0; 1; 1; 0; 0] 6
     = Ok (zeros_like (0%R, 0%R) (sample_points_s demo)).
Proof.
  assert (Hv : valid_config demo) by (repeat split; simpl; lia).
  assert (Hne : [1; 0; 1; 1; 0; 0] <> @nil Z) by discriminate.
  split; [exact Hv|].
  exact (proj2 (@qam_large_sizes_silent demo [1; 0; 1; 1; 0; 0] 6
                  Hv Hne ltac:(lia) eq_refl)).
Defined.

(** Case analysis on a list of booleans of a literal length. *)
Ltac split_bits row H :=
  repeat (let b := fresh "b" in
          destruct row as [|b row]; [discriminate H|]; destruct b);
  (destruct row; [|discriminate H]).

(** X9: the points a QAM symbol can get.  With [B = 2] a symbol gets one of
    three points of the 4-point table or the fallback, which is the case
    of the bits [1, 1]; with [B = 3] the rows are 2 bits wide and get one
    of four points of the 8-point table, never the fallback; with [B = 4]
    a symbol never gets the point [(1, 1)] of key 0 and gets the fallback
    exactly for the bits [1, 1, 1, 1]. *)
Theorem qam_emitted_points (B : Z) (row : list bool) :
  In B [2; 3; 4] -> length row = Z.to_nat (2 * (B / 2)) ->
  let p := get_qam_modulation_mapping (symbol_value row + 1) (2 ^ B) in
  (B = 2 ->
   In p [(1, -1); (-1, 1); (-1, -1); (0, 0)]
   /\ (p = (0, 0) <-> row = [true; true]))
  /\ (B = 3 -> In p [(1, 1); (-1, 1); (0, 3); (1, -1)])
  /\ (B = 4 ->
      p <> (1, 1) /\ (p = (0, 0) <-> row = [true; true; true; true])).
Proof.
  intros HB Hlen p.
  destruct HB as [<- | [<- | [<- | []]]]; subst p;
    (split; [|split]); intros HB'; try discriminate HB';
    change (length row = 2%nat) in Hlen || change (length row = 4%nat) in Hlen;
    split_bits row Hlen; vm_compute;
    repeat split; intros; try discriminate; try tauto; try congruence.
Qed.

Lemma qam_emitted_points_witness :
  In 2 [2; 3; 4]
  /\ (get_qam_modulation_mapping (symbol_value [true; true] + 1) (2 ^ 2)
      = (0, 0) <-> [true; true] = [true; true]).
Proof.
  assert (HB : In 2 [2; 3; 4]) by (simpl; tauto).
  split; [exact HB|].
  exact (proj2 (proj1 (@qam_emitted_points 2 [true; true] HB eq_refl)
                  eq_refl)).
Defined.

(** ** Samples of the real-valued schemes *)

Lemma synthesized_written {X Sym : Type} (self : DigitalModulation)
  (zero : X) (m : Z) (syms : list Sym) (sample : Sym -> Q -> X) (w : list X)
  (k : nat) (t : Q) (data : Sym) :
  synthesized self zero m syms sample w ->
  nth_error (sample_points_s self) k = Some t ->
  writer self m 0 syms k None = Some data ->
  nth_error w k = Some (sample data t).
Proof. intros (_ & Hnth) Ht W. now rewrite (Hnth k t Ht), W. Qed.

Lemma psk_all_ones_phase (self : DigitalModulation) (B : Z) (x : R) :
  0 <= B <= 8 ->
  sin (x + psk_phase_value_rad self B
             (symbol_value (repeat true (Z.to_nat B)) + 1))
  = sin (x + start_phase_rad self).
Proof.
  intros HB. unfold psk_phase_value_rad.
  rewrite symbol_value_small by (rewrite repeat_length; lia).
  rewrite pack_byte_ones, Z2Nat.id by lia.
  replace (2 ^ B - 1 + 1) with (2 ^ B) by lia.
  assert (Hp : IZR (2 ^ B) <> 0%R).
  { apply not_0_IZR. pose proof (Z.pow_pos_nonneg 2 B). lia. }
  replace (x + (start_phase_rad self + 2 * PI * IZR (2 ^ B) / IZR (2 ^ B)))%R
    with (x + start_phase_rad self + 2 * INR 1 * PI)%R
    by (simpl INR; field; exact Hp).
  apply sin_period.
Qed.

(** X10: in a valid PSK call with at most 8 bits per symbol, the all-ones
    symbol is sent with the phase shift [2 pi], that is as the unshifted
    carrier [sin(2 pi f_c t + phi0)]; with one bit per symbol the bit 0 is
    sent as [- sin(2 pi f_c t + phi0)], so binary PSK is antipodal. *)
Theorem psk_all_ones_unshifted
  (self : DigitalModulation) (data_vec : list Z) (B : Z) :
  valid_config self -> data_vec <> [] -> 1 <= B <= 8 ->
  len data_vec mod B = 0 ->
  exists w,
    get_psk_mod self data_vec B = Ok w
    /\ forall k t data,
         nth_error (sample_points_s self) k = Some t ->
         writer self (mod_samples_per_bit self (cycles self data_vec)) 0
                (symbols data_vec B) k None = Some data ->
         (data = repeat true (Z.to_nat B) ->
          nth_error w k
          = Some (sin (2 * PI * Q2R (carrier_freq_hz self) * Q2R t
                       + start_phase_rad self))%R)
         /\ (B = 1 -> data = [false] ->
             nth_error w k
             = Some (- sin (2 * PI * Q2R (carrier_freq_hz self) * Q2R t
                            + start_phase_rad self))%R).
Proof.
  intros Hvalid Hne HB Hmod.
  destruct (get_psk_mod_spec self Hvalid data_vec Hne B ltac:(lia) Hmod)
    as (w & Hw & Hs).
  exists w. split; [exact Hw|]. intros k t data Ht W.
  rewrite (synthesized_written _ _ _ _ _ _ _ _ _ Hs Ht W).
  unfold psk_symbol, psk_sample. split.
  - intros ->. f_equal.
    now rewrite psk_all_ones_phase by lia.
  - intros -> ->. f_equal. unfold psk_phase_value_rad.
    change (symbol_value [false] + 1) with 1. change (2 ^ 1) with 2.
    rewrite <- neg_sin. f_equal. field.
Qed.

Lemma psk_all_ones_unshifted_witness :
  valid_config demo /\ exists w, get_psk_mod demo [0; 1; 1; 0] 1 = Ok w.
Proof.
  assert (Hv : valid_config demo) by (repeat split; simpl; lia).
  assert (Hne : [0; 1; 1; 0] <> @nil Z) by discriminate.
  assert (HB : 1 <= 1 <= 8) by lia.
  split; [exact Hv|].
  destruct (@psk_all_ones_unshifted demo [0; 1; 1; 0] 1 Hv Hne HB eq_refl)
    as (w & Hw & _).
  exists w. exact Hw.
Defined.



(** X18: in a valid ASK call with at most 8 bits per symbol, a symbol
    whose byte [v] is below 255, which is every symbol when [B <= 7], is
    sent with the amplitude [(v + 1) / 2^B]; this amplitude is at least
    [1 / 2^B], at most 1 and strictly increasing in [v].  The symbol of
    the byte 255, the all-ones symbol of [B = 8], is sent as zeros. *)
Theorem ask_amplitude_below_wrap
  (self : DigitalModulation) (data_vec : list Z) (B : Z) :
  valid_config self -> data_vec <> [] -> 1 <= B <= 8 ->
  len data_vec mod B = 0 ->
  let A := fun v : Z => (inject_Z (v + 1) / inject_Z (2 ^ B))%Q in
  (exists w,
     get_ask_mod self data_vec B = Ok w
     /\ forall k t data,
          nth_error (sample_points_s self) k = Some t ->
          writer self (mod_samples_per_bit self (cycles self data_vec)) 0
                 (symbols data_vec B) k None = Some data ->
          0 <= symbol_value data <= 2 ^ B - 1
          /\ symbol_value data = pack_byte data
          /\ (symbol_value data < 255 ->
              nth_error w k
              = Some (Q2R (A (symbol_value data))
                      * sin (2 * PI * Q2R (carrier_freq_hz self) * Q2R t
                             + start_phase_rad self))%R)
          /\ (symbol_value data = 255 -> nth_error w k = Some 0%R))
  /\ (forall v, 0 <= v < 255 -> ask_amp_value B v = A v)
  /\ (forall v, 0 <= v <= 2 ^ B - 1 ->
        (0 < A v)%Q /\ (1 / inject_Z (2 ^ B) <= A v)%Q /\ (A v <= 1)%Q)
  /\ (forall v1 v2, v1 < v2 -> (A v1 < A v2)%Q)
  /\ (B <= 7 -> forall data, len data = B -> symbol_value data < 255).
Proof.
  intros Hvalid Hne HB Hmod A.
  assert (HB0 : 0 < B) by lia.
  pose proof (pow2_gt_1 B ltac:(lia)) as Hpow.
  assert (Hp : 0 < 2 ^ B) by lia.
  assert (Hone : (inject_Z (2 ^ B) / inject_Z (2 ^ B) == 1)%Q).
  { apply Qmult_inv_r. change 0%Q with (inject_Z 0).
    rewrite inject_Z_injective. lia. }
  assert (Hamp : forall v, 0 <= v < 255 -> ask_amp_value B v = A v).
  { intros v Hv. unfold ask_amp_value, A. now rewrite uint8_add_small. }
  split; [|split; [|split; [|split]]].
  - destruct (get_ask_mod_spec self Hvalid data_vec Hne B HB0 Hmod)
      as (w & Hw & Hlen & Hnth).
    exists w. split; [exact Hw|]. intros k t data Ht W.
    destruct (writer_row self data_vec B _ k data HB0 Hmod W) as (_ & Hrow).
    pose proof (symbol_value_range data B Hrow ltac:(lia)) as Hr.
    split; [exact Hr|].
    split; [apply symbol_value_small; unfold len in Hrow; lia|].
    rewrite (Hnth k t Ht), W. unfold ask_symbol, ask_sample. split.
    + intros Hlt. now rewrite Hamp by lia.
    + intros ->. f_equal. unfold ask_amp_value.
      change (uint8_add 255 1) with 0. unfold Qdiv.
      rewrite Q2R_mult, Q2R_inject_Z. ring.
  - exact Hamp.
  - intros v Hv. unfold A. split; [|split].
    + setoid_replace 0%Q with (inject_Z 0 / inject_Z (2 ^ B))%Q
        by (unfold Qdiv; change (inject_Z 0) with 0%Q; ring).
      apply Qdiv_pos_lt; lia.
    + change 1%Q with (inject_Z 1). apply Qdiv_pos_le; lia.
    + rewrite <- Hone. apply Qdiv_pos_le; lia.
  - intros v1 v2 Hlt. unfold A. apply Qdiv_pos_lt; lia.
  - intros H7 data Hlen.
    pose proof (symbol_value_range data B Hlen ltac:(lia)) as Hr.
    assert (2 ^ B <= 2 ^ 7) by (apply Z.pow_le_mono_r; lia).
    change (2 ^ 7) with 128 in *. lia.
Qed.

(** [ask([0,1,1,0], B=1)] on the demo engine: the bit 0 has the amplitude
    1/2, below that of the bit 1. *)
Lemma ask_amplitude_below_wrap_witness :
  valid_config demo
  /\ ask_amp_value 1 0 = (inject_Z (0 + 1) / inject_Z (2 ^ 1))%Q
  /\ (inject_Z (0 + 1) / inject_Z (2 ^ 1)
      < inject_Z (1 + 1) / inject_Z (2 ^ 1))%Q.
Proof.
  assert (Hv : valid_config demo) by (repeat split; simpl; lia).
  assert (Hne : [0; 1; 1; 0] <> @nil Z) by discriminate.
  assert (HB : 1 <= 1 <= 8) by lia.
  assert (Hmod : len [0; 1; 1; 0] mod 1 = 0) by reflexivity.
  split; [exact Hv|].
  destruct (@ask_amplitude_below_wrap demo [0; 1; 1; 0] 1 Hv Hne HB Hmod)
    as (_ & Hamp & _ & Hincr & _).
  split; [exact (Hamp 0 ltac:(lia)) | exact (Hincr 0 1 ltac:(lia))].
Defined.

(** ** Bounds on the samples *)

Lemma symbol_value_below (data : list bool) (B : Z) :
  len data = B -> 0 <= symbol_value data /\ symbol_value data + 1 <= 2 ^ B.
Proof.
  intros HB. unfold symbol_value.
  pose proof (pack_byte_range (firstn 8 data)) as Hr.
  assert (Hle : len (firstn 8 data) <= B).
  { unfold len in *. rewrite length_firstn. lia. }
  assert (Hpow : 2 ^ len (firstn 8 data) <= 2 ^ B)
    by (apply Z.pow_le_mono_r; [lia | exact Hle]).
  lia.
Qed.

Lemma uint8_add_range (a b : Z) : 0 <= uint8_add a b <= 255.
Proof. unfold uint8_add. pose proof (Z.mod_pos_bound (a + b) 256). lia. Qed.

Lemma uint8_incr_below (data : list bool) (B : Z) :
  0 < B -> len data = B ->
  0 <= uint8_add (symbol_value data) 1 <= 2 ^ B.
Proof.
  intros HB Hlen. destruct (symbol_value_below data B Hlen) as (H0 & H1).
  pose proof (uint8_add_range (symbol_value data) 1) as Hr.
  split; [lia|].
  destruct (Z_lt_le_dec (symbol_value data) 255) as [Hlt|Hge].
  - rewrite uint8_add_small by lia. exact H1.
  - assert (Hv : symbol_value data = 255).
    { unfold symbol_value in *.
      pose proof (pack_byte_range (firstn 8 data)) as Hp.
      assert (Hl : len (firstn 8 data) <= 8)
        by (unfold len; rewrite length_firstn; lia).
      assert (H8 : 2 ^ len (firstn 8 data) <= 2 ^ 8)
        by (apply Z.pow_le_mono_r; [lia | exact Hl]).
      change (2 ^ 8) with 256 in H8. lia. }
    rewrite Hv. change (uint8_add 255 1) with 0.
    apply Z.pow_nonneg. lia.
Qed.

Lemma ask_amp_unit (data : list bool) (B : Z) :
  0 < B -> len data = B ->
  (0 <= Q2R (ask_amp_value B (symbol_value data)) <= 1)%R.
Proof.
  intros HB Hlen. destruct (uint8_incr_below data B HB Hlen) as (H0 & H1).
  assert (Hp : 0 < 2 ^ B) by (apply Z.pow_pos_nonneg; lia).
  unfold ask_amp_value. split.
  - rewrite <- RMicromega.Q2R_0. apply Qle_Rle.
    setoid_replace 0%Q with (inject_Z 0 / inject_Z (2 ^ B))%Q
      by (unfold Qdiv; change (inject_Z 0) with 0%Q; ring).
    apply Qdiv_pos_le; lia.
  - rewrite <- RMicromega.Q2R_1. apply Qle_Rle.
    setoid_replace 1%Q with (inject_Z (2 ^ B) / inject_Z (2 ^ B))%Q.
    + apply Qdiv_pos_le; lia.
    + symmetry. apply Qmult_inv_r. change 0%Q with (inject_Z 0).
      rewrite inject_Z_injective. lia.
Qed.

Lemma qam_point_bound (value qam_idx : Z) :
  -3 <= fst (get_qam_modulation_mapping value qam_idx) <= 3
  /\ -3 <= snd (get_qam_modulation_mapping value qam_idx) <= 3.
Proof.
  unfold get_qam_modulation_mapping, qam_table.
  repeat match goal with
         | |- context [if ?c then _ else _] => destruct c
         end; simpl; lia.
Qed.

Lemma scaled_bound (a s c : R) :
  (- c <= a <= c)%R -> (-1 <= s <= 1)%R -> (Rabs (a * s) <= c)%R.
Proof. intros Ha Hs. apply Rabs_le. split; nra. Qed.

(** X12: no sample of a valid call leaves the range of its scheme: ASK and
    FSK samples have absolute value at most 1, for every symbol width, and
    both parts of a QAM sample have absolute value at most 3. *)
Theorem samples_bounded
  (self : DigitalModulation) (data_vec : list Z) (B : Z) (frequency_span : Q) :
  valid_config self -> data_vec <> [] ->
  (0 < B -> len data_vec mod B = 0 ->
   (exists w, get_ask_mod self data_vec B = Ok w
              /\ forall k x, nth_error w k = Some x -> (Rabs x <= 1)%R)
   /\ (exists w, get_fsk_mod self data_vec frequency_span B = Ok w
                 /\ forall k x, nth_error w k = Some x -> (Rabs x <= 1)%R))
  /\ (0 < B / 2 -> len data_vec mod (2 * (B / 2)) = 0 ->
      exists w, get_qam_mod self data_vec B = Ok w
                /\ forall k x, nth_error w k = Some x ->
                     (Rabs (fst x) <= 3)%R /\ (Rabs (snd x) <= 3)%R).
Proof.
  intros Hvalid Hne. split.
  - intros HB Hmod. split.
    + destruct (get_ask_mod_spec self Hvalid data_vec Hne B HB Hmod)
        as (w & Hw & Hs).
      exists w. split; [exact Hw|]. intros k x Hx.
      destruct (synthesized_sample self _ _ _ _ _ _ _ Hs Hx) as (t & _ & ->).
      destruct (writer self _ 0 (symbols data_vec B) k None) as [data|] eqn:W.
      * destruct (writer_row self data_vec B _ k data HB Hmod W) as (_ & Hl).
        unfold ask_symbol, ask_sample. apply scaled_bound.
        -- pose proof (ask_amp_unit data B HB Hl). lra.
        -- apply SIN_bound.
      * rewrite Rabs_R0. lra.
    + destruct (get_fsk_mod_spec self Hvalid data_vec Hne B frequency_span
                  HB Hmod) as (w & Hw & Hs).
      exists w. split; [exact Hw|]. intros k x Hx.
      destruct (synthesized_sample self _ _ _ _ _ _ _ Hs Hx) as (t & _ & ->).
      destruct (writer self _ 0 (symbols data_vec B) k None) as [data|].
      * unfold fsk_symbol, fsk_sample. apply Rabs_le. apply SIN_bound.
      * rewrite Rabs_R0. lra.
  - intros Hhalf Hmod.
    destruct (get_qam_mod_spec self Hvalid data_vec Hne B Hhalf Hmod)
      as (w & Hw & Hs).
    exists w. split; [exact Hw|]. intros k x Hx. unfold complex in *.
    destruct (synthesized_sample self _ _ _ _ _ _ _ Hs Hx) as (t & _ & ->).
    destruct (writer self _ 0 (qam_symbols data_vec B) k None) as [data|].
    + unfold qam_symbol, qam_sample.
      pose proof (qam_point_bound (symbol_value (concat data) + 1) (2 ^ B))
        as Hb.
      destruct (get_qam_modulation_mapping _ _) as [i q]. simpl in Hb |- *.
      destruct Hb as ((Hi1 & Hi2) & (Hq1 & Hq2)).
      apply IZR_le in Hi1, Hi2, Hq1, Hq2.
      split; apply scaled_bound; try lra;
        [apply COS_bound | apply SIN_bound].
    + simpl. rewrite Rabs_R0. lra.
Qed.

Lemma samples_bounded_witness :
  valid_config demo
  /\ exists w, get_fsk_mod demo [0; 1; 1; 0] (200000 # 1) 2 = Ok w.
Proof.
  assert (Hv : valid_config demo) by (repeat split; simpl; lia).
  assert (Hne : [0; 1; 1; 0] <> @nil Z) by discriminate.
  split; [exact Hv|].
  destruct (proj2 (proj1 (@samples_bounded demo [0; 1; 1; 0] 2
                            (200000 # 1)%Q Hv Hne) ltac:(lia) eq_refl))
    as (w & Hw & _).
  exists w. exact Hw.
Defined.

(** ** Grouping and packing of the bits *)

Lemma chunks_fuel_nth {A : Type} (n : nat) :
  (0 < n)%nat ->
  forall (j fuel : nat) (l row : list A),
    (length l <= fuel)%nat ->
    nth_error (chunks_fuel fuel n l) j = Some row ->
    row = firstn n (skipn (j * n) l).
Proof.
  intros Hn. induction j as [|j IH]; intros fuel l row Hf Hj.
  - destruct fuel as [|fuel]; [discriminate|].
    destruct l as [|x l]; [discriminate|].
    cbn [chunks_fuel nth_error] in Hj. injection Hj as <-. reflexivity.
  - destruct fuel as [|fuel]; [discriminate|].
    destruct l as [|x l]; [discriminate|].
    cbn [chunks_fuel nth_error] in Hj.
    apply IH in Hj.
    + rewrite Hj, skipn_skipn. do 2 f_equal. simpl. lia.
    + rewrite length_skipn. cbn [length] in Hf |- *. lia.
Qed.

Lemma pack_byte_testbit (bits : list bool) (i : nat) :
  Z.testbit (pack_byte bits) (Z.of_nat i) = nth i bits false.
Proof.
  revert i. induction bits as [|b bits IH]; intros i.
  - simpl. destruct i; apply Z.testbit_0_l.
  - cbn [pack_byte]. rewrite Z.add_comm. destruct i as [|i].
    + simpl nth. apply Z.testbit_0_r.
    + rewrite Nat2Z.inj_succ, Z.testbit_succ_r by lia. apply IH.
Qed.

(** X13: the grouping keeps every bit in its place: with [B] dividing the
    length, there are [len / B] symbols, symbol [j] is the bits
    [j*B .. j*B + B - 1] of the input, the symbols put end to end are the
    input again, and bit [i] of the packed value of a symbol is its bit
    [i] (the first bit is the least significant), for the first 8 bits. *)
Theorem symbols_partition (data_vec : list Z) (B : Z) :
  0 < B -> len data_vec mod B = 0 ->
  length (symbols data_vec B) = Z.to_nat (len data_vec / B)
  /\ concat (symbols data_vec B) = astype_bool data_vec
  /\ forall j row,
       nth_error (symbols data_vec B) j = Some row ->
       row = firstn (Z.to_nat B)
               (skipn (j * Z.to_nat B) (astype_bool data_vec))
       /\ length row = Z.to_nat B
       /\ forall i, Z.testbit (symbol_value row) (Z.of_nat i)
                    = nth i (firstn 8 row) false.
Proof.
  intros HB Hmod.
  destruct (symbols_rows data_vec B HB Hmod) as (_ & Hlen & Hall).
  split; [exact Hlen|]. split.
  - assert (Hmod' : len (astype_bool data_vec) mod B = 0)
      by (unfold len; now rewrite astype_bool_length).
    exact (proj2 (proj2 (proj2
             (reshape_ok (astype_bool data_vec) B HB Hmod')))).
  - intros j row Hj. split; [|split].
    + unfold symbols, chunks in Hj.
      apply (chunks_fuel_nth (Z.to_nat B) ltac:(lia) j _ _ row
               (Nat.le_refl _) Hj).
    + rewrite Forall_forall in Hall. apply Hall.
      exact (nth_error_In _ _ Hj).
    + intros i. unfold symbol_value. apply pack_byte_testbit.
Qed.

Lemma symbols_partition_witness :
  0 < 2
  /\ concat (symbols [0; 1; 1; 0] 2) = astype_bool [0; 1; 1; 0].
Proof.
  assert (HB : 0 < 2) by lia.
  split; [exact HB|].
  exact (proj1 (proj2 (@symbols_partition [0; 1; 1; 0] 2 HB eq_refl))).
Defined.

Lemma pack_byte_inj (l1 l2 : list bool) :
  length l1 = length l2 -> pack_byte l1 = pack_byte l2 -> l1 = l2.
Proof.
  revert l2. induction l1 as [|b1 l1 IH]; intros [|b2 l2] Hlen Hp;
    try discriminate; [reflexivity|].
  cbn [pack_byte] in Hp. injection Hlen as Hlen.
  assert (Hb : b1 = b2)
    by (destruct b1, b2; cbn [Z.b2z] in Hp; try reflexivity; lia).
  subst b2. f_equal. apply IH; [exact Hlen|]. lia.
Qed.

Lemma symbol_value_inj (B : Z) (d1 d2 : list bool) :
  B <= 8 -> len d1 = B -> len d2 = B ->
  symbol_value d1 = symbol_value d2 -> d1 = d2.
Proof.
  intros H8 H1 H2 E. unfold len in *.
  rewrite !symbol_value_small in E by lia.
  apply pack_byte_inj; [lia | exact E].
Qed.

(** X14: with at most 8 bits per symbol, different symbols get different
    ASK amplitudes: two rows of [B] bits with the same amplitude are the
    same row.  The wrap at the byte 255 does not merge two symbols, it
    sends the all-ones symbol of 8 bits to the amplitude 0 that no other
    symbol has. *)
Theorem symbols_distinguishable (B : Z) (d1 d2 : list bool) :
  1 <= B <= 8 -> len d1 = B -> len d2 = B ->
  (ask_amp_value B (symbol_value d1)
   == ask_amp_value B (symbol_value d2))%Q ->
  d1 = d2.
Proof.
  intros HB H1 H2 E.
  pose proof (pow2_gt_1 B ltac:(lia)) as Hpow.
  apply (symbol_value_inj B); try lia; try assumption.
  unfold ask_amp_value in E.
  assert (Hle1 : uint8_add (symbol_value d1) 1
                 <= uint8_add (symbol_value d2) 1).
  { apply (Qdiv_pos_le _ _ (2 ^ B)); [lia|]. rewrite E. apply Qle_refl. }
  assert (Hle2 : uint8_add (symbol_value d2) 1
                 <= uint8_add (symbol_value d1) 1).
  { apply (Qdiv_pos_le _ _ (2 ^ B)); [lia|]. rewrite E. apply Qle_refl. }
  assert (Hr1 : 0 <= symbol_value d1 <= 255).
  { pose proof (symbol_value_range d1 B H1 ltac:(lia)).
    assert (2 ^ B <= 2 ^ 8) by (apply Z.pow_le_mono_r; lia).
    change (2 ^ 8) with 256 in *. lia. }
  assert (Hr2 : 0 <= symbol_value d2 <= 255).
  { pose proof (symbol_value_range d2 B H2 ltac:(lia)).
    assert (2 ^ B <= 2 ^ 8) by (apply Z.pow_le_mono_r; lia).
    change (2 ^ 8) with 256 in *. lia. }
  unfold uint8_add in Hle1, Hle2.
  destruct (Z.eq_dec (symbol_value d1) 255) as [E1|E1];
    destruct (Z.eq_dec (symbol_value d2) 255) as [E2|E2];
    try rewrite E1 in *; try rewrite E2 in *;
    change ((255 + 1) mod 256) with 0 in *;
    rewrite ?Z.mod_small in Hle1, Hle2 by lia; lia.
Qed.

Lemma symbols_distinguishable_witness :
  1 <= 2 <= 8
  /\ ((ask_amp_value 2 (symbol_value [true; false])
       == ask_amp_value 2 (symbol_value [true; false]))%Q ->
      [true; false] = [true; false]).
Proof.
  assert (HB : 1 <= 2 <= 8) by lia.
  split; [exact HB|].
  exact (@symbols_distinguishable 2 [true; false] [true; false]
           HB eq_refl eq_refl).
Defined.

(** ** What the waveform does not depend on *)

Lemma getitem0_packbits_prefix (d1 d2 : list bool) :
  firstn 8 d1 = firstn 8 d2 ->
  getitem0 (packbits_little d1) = getitem0 (packbits_little d2).
Proof.
  intros E. destruct d1 as [|b1 d1], d2 as [|b2 d2]; try discriminate.
  - reflexivity.
  - rewrite !getitem0_packbits by discriminate.
    unfold symbol_value. now rewrite E.
Qed.

Lemma for_enumerate_related {A S : Type} (rel : A -> A -> Prop)
  (body : Z -> A -> S -> result S) (l1 l2 : list A) :
  Forall2 rel l1 l2 ->
  (forall i d1 d2 s, rel d1 d2 -> body i d1 s = body i d2 s) ->
  forall idx s, for_enumerate body idx l1 s = for_enumerate body idx l2 s.
Proof.
  intros Hrel Hbody. induction Hrel as [|d1 d2 l1 l2 Hd _ IH]; intros idx s.
  - reflexivity.
  - cbn [for_enumerate]. rewrite (Hbody idx d1 d2 s Hd).
    destruct (body idx d2 s); simpl; [apply IH | reflexivity].
Qed.

Lemma map_eq_Forall2 {A C : Type} (f : A -> C) (l1 l2 : list A) :
  map f l1 = map f l2 -> Forall2 (fun a b => f a = f b) l1 l2.
Proof.
  revert l2. induction l1 as [|a l1 IH]; intros [|b l2] E;
    try discriminate; constructor.
  - now injection E.
  - apply IH. now injection E.
Qed.

Lemma reshape_same_shape {A : Type} (a1 a2 : list A) (d : Z) :
  length a1 = length a2 ->
  match reshape a1 d, reshape a2 d with
  | Ok r1, Ok r2 =>
      r1 = chunks (Z.to_nat d) a1 /\ r2 = chunks (Z.to_nat d) a2
  | Raise e1, Raise e2 => e1 = e2
  | _, _ => False
  end.
Proof.
  intros Hlen. unfold reshape, len. rewrite Hlen.
  destruct (d <=? 0); [reflexivity|].
  destruct (negb (Z.of_nat (length a2) mod d =? 0)); [reflexivity | auto].
Qed.

(** The three real-valued modulators on two inputs whose rows agree on
    their first eight bits. *)
Ltac same_prefix_rows Hlen Hrows :=
  unfold periods_per_bit, len; rewrite Hlen;
  match goal with
  | |- bind ?c _ = bind ?c _ => destruct c as [p|e]; [|reflexivity]
  end;
  cbn [bind];
  match goal with
  | |- bind (reshape (astype_bool ?b1) ?B) _
       = bind (reshape (astype_bool ?b2) ?B) _ =>
      let Hr := fresh "Hr" in
      assert (Hr := reshape_same_shape (astype_bool b1) (astype_bool b2) B
                      ltac:(rewrite !astype_bool_length; exact Hlen));
      destruct (reshape (astype_bool b1) B) as [r1|e1],
               (reshape (astype_bool b2) B) as [r2|e2];
      try contradiction;
      [ destruct Hr as [-> ->]; cbn [bind];
        apply (for_enumerate_related
                 (fun d1 d2 => firstn 8 d1 = firstn 8 d2));
        [ exact (map_eq_Forall2 (firstn 8) _ _ Hrows)
        | let E := fresh "E" in
          intros ? ? ? ? E;
          now rewrite (getitem0_packbits_prefix _ _ E) ]
      | cbn [bind]; now rewrite Hr ]
  end.

(** X15: the bits of a symbol after the eighth are ignored: two bit
    sequences of one length whose rows agree on their first eight bits
    give the same ASK, PSK and FSK result, waveform or exception. *)
Theorem bits_after_eighth_ignored
  (self : DigitalModulation) (bits1 bits2 : list Z) (B : Z)
  (frequency_span : Q) :
  length bits1 = length bits2 ->
  map (firstn 8) (symbols bits1 B) = map (firstn 8) (symbols bits2 B) ->
  get_ask_mod self bits1 B = get_ask_mod self bits2 B
  /\ get_psk_mod self bits1 B = get_psk_mod self bits2 B
  /\ get_fsk_mod self bits1 frequency_span B
     = get_fsk_mod self bits2 frequency_span B.
Proof.
  intros Hlen Hrows. unfold symbols in Hrows.
  split; [|split].
  - unfold get_ask_mod. same_prefix_rows Hlen Hrows.
  - unfold get_psk_mod. same_prefix_rows Hlen Hrows.
  - unfold get_fsk_mod. same_prefix_rows Hlen Hrows.
Qed.

Lemma bits_after_eighth_ignored_witness :
  get_ask_mod demo [1; 0; 1; 1; 0; 0; 1; 0; 0] 9
  = get_ask_mod demo [1; 0; 1; 1; 0; 0; 1; 0; 1] 9.
Proof.
  exact (proj1 (@bits_after_eighth_ignored demo
                  [1; 0; 1; 1; 0; 0; 1; 0; 0] [1; 0; 1; 1; 0; 0; 1; 0; 1]
                  9 (200000 # 1)%Q eq_refl eq_refl)).
Defined.

Lemma astype_bool_zeroness (bits1 bits2 : list Z) :
  map (fun b => b =? 0) bits1 = map (fun b => b =? 0) bits2 ->
  astype_bool bits1 = astype_bool bits2 /\ len bits1 = len bits2.
Proof.
  intros E. split.
  - unfold astype_bool.
    rewrite <- (map_map (fun b => b =? 0) negb bits1).
    rewrite <- (map_map (fun b => b =? 0) negb bits2).
    now rewrite E.
  - unfold len. f_equal.
    rewrite <- (length_map (fun b => b =? 0) bits1), E.
    apply length_map.
Qed.

(** X16: the entries of the bit sequence count only as zero or not zero:
    two sequences that are zero at the same places give the same result,
    waveform or exception, in each of the four modulators. *)
Theorem only_zeroness_matters
  (self : DigitalModulation) (bits1 bits2 : list Z) (B : Z)
  (frequency_span : Q) :
  map (fun b => b =? 0) bits1 = map (fun b => b =? 0) bits2 ->
  get_ask_mod self bits1 B = get_ask_mod self bits2 B
  /\ get_psk_mod self bits1 B = get_psk_mod self bits2 B
  /\ get_fsk_mod self bits1 frequency_span B
     = get_fsk_mod self bits2 frequency_span B
  /\ get_qam_mod self bits1 B = get_qam_mod self bits2 B.
Proof.
  intros E. destruct (astype_bool_zeroness bits1 bits2 E) as (Ha & Hl).
  unfold get_ask_mod, get_psk_mod, get_fsk_mod, get_qam_mod, periods_per_bit.
  rewrite Ha, Hl. repeat split.
Qed.

Lemma only_zeroness_matters_witness :
  get_qam_mod demo [0; 7; -1; 0] 2 = get_qam_mod demo [0; 1; 1; 0] 2.
Proof.
  exact (proj2 (proj2 (proj2
    (@only_zeroness_matters demo [0; 7; -1; 0] [0; 1; 1; 0] 2
       (200000 # 1)%Q eq_refl)))).
Defined.
